(** * Lambda@Edge functions: a model of [aws-lambda/lib/edge-function.ts]

    The TypeScript module builds part of a construct tree.  Constructs are
    objects that live in a tree and are found by the path of ids that leads
    to them from the root, so a construct's path is its identity here.
    Construction mutates the tree and may throw; the model threads the tree
    through every call and keeps the tree as it is at the moment of a throw. *)

From Stdlib Require Import String List Bool NArith Lia.
Import ListNotations.
Open Scope string_scope.
Open Scope list_scope.

Infix "+:+" := String.append (at level 60, right associativity).

(** ** Paths *)

Definition path := list string.

Fixpoint path_eqb (p q : path) : bool :=
  match p, q with
  | [], [] => true
  | a :: p', b :: q' => String.eqb a b && path_eqb p' q'
  | _, _ => false
  end.

(** ** Strings that may be deferred

    A CDK string is either a concrete string or a token that stands for a
    value only known at deployment. *)

Record ArnComponents := {
  arn_service : string;
  arn_region : string;
  arn_resource : string;
  arn_resourceName : string }.

Inductive sval : Type :=
| Lit (s : string)
| PseudoRegion
| Attr (resource : path) (attribute : string)
| FormatArn (stack : path) (components : ArnComponents)
| QualifierOf (arn : sval).

(** Modelled from the spec: [Token.isUnresolved] of the core library is not
    among the sources; the spec has "Value<T> = Known(T) | Deferred(handle)",
    and a value is unresolved exactly when it is not a known one. *)
Definition isUnresolved (v : sval) : bool :=
  match v with
  | Lit _ => false
  | _ => true
  end.

(** [v === s] for a string literal [s]: a token never equals a literal. *)
Definition strictEq (v : sval) (s : string) : bool :=
  match v with
  | Lit x => String.eqb x s
  | _ => false
  end.

(** Modelled from the spec: [extractQualifierFromArn] of lambda-version.ts is
    not among the sources; the spec speaks of a "resolved version-qualifier
    string" of the identifier, which stays symbolic. *)
Definition extractQualifierFromArn (arn : sval) : sval := QualifierOf arn.

(** ** Properties of the collaborating constructs *)

Record FunctionProps := {
  fp_runtime : string;
  fp_handler : string;
  fp_code : string;
  fp_functionName : option string;
  fp_role : option path;
  fp_vpc : option path }.

(** [{ ...props, role }] *)
Definition with_role (props : FunctionProps) (role : path) : FunctionProps :=
  {| fp_runtime := fp_runtime props;
     fp_handler := fp_handler props;
     fp_code := fp_code props;
     fp_functionName := fp_functionName props;
     fp_role := Some role;
     fp_vpc := fp_vpc props |}.

Inductive servicePrincipal :=
| ServicePrincipal (service : string).

Inductive principal :=
| CompositePrincipal (principals : list servicePrincipal).

Inductive managedPolicy :=
| fromAwsManagedPolicyName (name : string).

Record RoleProps := {
  assumedBy : principal;
  managedPolicies : list managedPolicy }.

Inductive synthesizer :=
| DefaultStackSynthesizer (bootstrapless : bool)
    (deployRoleArn cloudFormationExecutionRoleArn : string)
| OtherSynthesizer.

Record StackProps := {
  sp_synthesizer : option synthesizer;
  sp_env_region : sval }.

Record PolicyStatement := {
  ps_Effect : string;
  ps_Resource : sval;
  ps_Action : list string }.

Record CustomResourceProviderProps := {
  codeDirectory : string;
  providerRuntime : string;
  policyStatements : list PolicyStatement }.

Record ReaderProperties := {
  Region : string;
  ParameterName : string;
  RefreshEachDeploy : N }.

Record CustomResourceProps := {
  cr_resourceType : string;
  cr_serviceToken : sval;
  cr_properties : ReaderProperties }.

Record AliasOptions := {
  ao_description : option string;
  ao_additionalVersions : list (path * N);
  ao_provisionedConcurrentExecutions : option N }.

Record AliasProps := {
  ap_aliasName : string;
  ap_version : path;
  ap_options : AliasOptions }.

Record MetricOptions := {
  mo_account : option string;
  mo_color : option string;
  mo_dimensions : list (string * string);
  mo_label : option string;
  mo_period : option N;
  mo_region : option string;
  mo_statistic : option string;
  mo_unit : option string }.

(** ** The construct tree *)

Inductive construct :=
| AppC
| StageC
| StackC (crossRegionLambdaStack : bool) (region : sval) (synth : synthesizer)
| EdgeFunctionC
| FunctionC (props : FunctionProps)
| VersionC (lambda : path)
| RoleC (props : RoleProps)
| StringParameterC (parameterName : string) (stringValue : sval)
| CustomResourceProviderC (props : CustomResourceProviderProps)
| CustomResourceC (props : CustomResourceProps)
| AliasC (props : AliasProps)
| OtherC (type : string).

(** The tree lists its constructs newest first.  [dependencies] holds the
    build-order edges between stacks, [clock] what [Date.now()] reads, and
    [defaultSynthesizer] the synthesizer the core library gives a stack that
    is created without one. *)
Record world := {
  constructs : list (path * construct);
  dependencies : list (path * path);
  clock : N;
  defaultSynthesizer : synthesizer }.

Fixpoint lookup (t : list (path * construct)) (p : path) : option construct :=
  match t with
  | [] => None
  | (q, c) :: t' => if path_eqb q p then Some c else lookup t' p
  end.

Definition attach (p : path) (c : construct) (w : world) : world :=
  {| constructs := (p, c) :: constructs w;
     dependencies := dependencies w;
     clock := clock w;
     defaultSynthesizer := defaultSynthesizer w |}.

Definition depend (source target : path) (w : world) : world :=
  {| constructs := constructs w;
     dependencies := (source, target) :: dependencies w;
     clock := clock w;
     defaultSynthesizer := defaultSynthesizer w |}.

(** ** Construction as a computation on the tree that may throw *)

Inductive result (A : Type) :=
| Ok (a : A)
| Throw (message : string).
Arguments Ok {A} a.
Arguments Throw {A} message.

Definition M (A : Type) : Type := world -> world * result A.

Definition ret {A} (a : A) : M A := fun w => (w, Ok a).

Definition throw {A} (message : string) : M A := fun w => (w, Throw message).

Definition bind {A B} (m : M A) (k : A -> M B) : M B :=
  fun w =>
    match m w with
    | (w', Ok a) => k a w'
    | (w', Throw e) => (w', Throw e)
    end.

Notation "'let!' x ':=' m 'in' k" := (bind m (fun x => k))
  (at level 10, x pattern, m at level 100, k at level 200).

Definition get {A} (f : world -> A) : M A := fun w => (w, Ok (f w)).

(** ** The collaborators of the core library and of the sibling modules

    None of them is among the sources.  Each is modelled by the one fact the
    spec's interface list gives for it: a constructor attaches one construct
    under its parent and hands back its handle. *)

(** Modelled from the spec: "Deterministic child lookup: given a parent node
    and a derived name, find an existing child or signal absence"
    ([node.tryFindChild], missing from the sources). *)
Definition tryFindChild (scope : path) (id : string) : M (option path) :=
  fun w =>
    match lookup (constructs w) (scope ++ [id]) with
    | Some _ => (w, Ok (Some (scope ++ [id])))
    | None => (w, Ok None)
    end.

(** Modelled from the spec: every constructor has the shape
    "(parent, id, config) -> handle" and a child is found by its name, so a
    parent has one child per name; the base [Construct] constructor (missing
    from the sources) refuses a name that is taken. *)
Definition Construct_new (scope : path) (id : string) (c : construct) : M path :=
  fun w =>
    match lookup (constructs w) (scope ++ [id]) with
    | Some _ =>
        (w, Throw ("There is already a Construct with name '" +:+ id +:+ "'"))
    | None => (attach (scope ++ [id]) c w, Ok (scope ++ [id]))
    end.

Definition isStack (c : construct) : bool :=
  match c with
  | StackC _ _ _ => true
  | _ => false
  end.

(** The nearest stack at or above a construct, looking from the construct
    upwards; [rp] is the path reversed. *)
Fixpoint enclosingStack (t : list (path * construct)) (rp : path) : option path :=
  match lookup t (rev rp) with
  | Some (StackC _ _ _) => Some (rev rp)
  | _ =>
      match rp with
      | [] => None
      | _ :: rp' => enclosingStack t rp'
      end
  end.

(** Modelled from the spec: the "caller's stack" of a construct ([Stack.of],
    missing from the sources) is the stack that contains it. *)
Definition Stack_of (p : path) : M path :=
  fun w =>
    match enclosingStack (constructs w) (rev p) with
    | Some s => (w, Ok s)
    | None => (w, Throw "No stack could be identified for the construct")
    end.

(** Modelled from the spec: the region of a stack ([Stack.region], missing
    from the sources) is "the caller's declared deployment region (which may
    be a not-yet-known/deferred value)". *)
Definition Stack_region (stack : path) : M sval :=
  fun w =>
    match lookup (constructs w) stack with
    | Some (StackC _ region _) => (w, Ok region)
    | _ => (w, Throw "TypeError: not a stack")
    end.

(** Modelled from the spec: [Stack.synthesizer] is missing from the sources
    and the spec leaves the "rendering/synthesis machinery" out; a stack
    keeps the synthesizer it was created with. *)
Definition Stack_synthesizer (stack : path) : M synthesizer :=
  fun w =>
    match lookup (constructs w) stack with
    | Some (StackC _ _ synth) => (w, Ok synth)
    | _ => (w, Throw "TypeError: not a stack")
    end.

(** Modelled from the spec: "Cross-stack build-order dependency registration:
    (consumerStack, providerStack) -> void" ([Stack.addDependency], missing
    from the sources) records the edge. *)
Definition Stack_addDependency (this target : path) : M unit :=
  fun w => (depend this target w, Ok tt).

(** Modelled from the spec: [Stack.formatArn] is missing from the sources;
    "that key's address" stays a symbolic string made of the stack that
    formats it and of the components. *)
Definition Stack_formatArn (this : path) (components : ArnComponents) : sval :=
  FormatArn this components.

(** Modelled from the spec: "Application container root lookup"; the root of
    the tree is the empty path, and [Stage.isStage] (missing from the
    sources) holds of an app or a stage. *)
Definition node_root : path := [].

Definition Stage_isStage (p : path) : M bool :=
  fun w =>
    match lookup (constructs w) p with
    | Some AppC | Some StageC => (w, Ok true)
    | _ => (w, Ok false)
    end.

(** The base class [Resource]: what [super(scope, id)] leaves in [this]. *)
Record Resource := {
  node : path;
  stack : path;
  env_region : sval }.

(** Modelled from the spec: the constructor of [Resource] (core library,
    missing from the sources) attaches the construct, finds "the caller's own
    stack" and takes the stack's region as "the caller's own region". *)
Definition Resource_new (scope : path) (id : string) : M Resource :=
  let! this := Construct_new scope id EdgeFunctionC in
  let! stack := Stack_of this in
  let! region := Stack_region stack in
  ret {| node := this; stack := stack; env_region := region |}.

(** Modelled from the spec: a new stack ([Stack], missing from the sources)
    is attached under its scope with the region of its props; without a
    synthesizer in the props it gets the default one. *)
Definition CrossRegionLambdaStack_new (scope : path) (id : string)
    (props : StackProps) : M path :=
  let! dflt := get defaultSynthesizer in
  Construct_new scope id
    (StackC true (sp_env_region props)
       (match sp_synthesizer props with Some s => s | None => dflt end)).

(** Modelled from the spec: "Underlying compute resource constructor:
    (parent, id, config-with-role) -> handle with .currentVersionHandle,
    .roleHandle, .permissionsNode" ([Function], missing from the sources). *)
Definition Function_new (scope : path) (id : string) (props : FunctionProps)
    : M path :=
  Construct_new scope id (FunctionC props).

(** Modelled from the spec: the name and the ARN of a function are deferred
    values, "represented symbolically during graph construction". *)
Definition Function_functionName (fn : path) : sval := Attr fn "functionName".

(** Modelled from the spec: ".roleHandle" of the function handle, the role
    the function was configured with. *)
Definition Function_role (fn : path) : M (option path) :=
  fun w =>
    match lookup (constructs w) fn with
    | Some (FunctionC props) => (w, Ok (fp_role props))
    | _ => (w, Ok None)
    end.

(** Modelled from the spec: ".currentVersionHandle" of the function handle
    ([Function.currentVersion], missing from the sources); the version is a
    child of the function, made on first use. *)
Definition Function_currentVersion (fn : path) : M path :=
  let! found := tryFindChild fn "CurrentVersion" in
  match found with
  | Some v => ret v
  | None => Construct_new fn "CurrentVersion" (VersionC fn)
  end.

(** Modelled from the spec: the "version-qualified identifier" of a version
    ([IVersion.edgeArn], missing from the sources) is a deferred value. *)
Definition Version_edgeArn (version : path) : sval := Attr version "edgeArn".

(** Modelled from the spec: the "access-policy resource" ([iam.Role], missing
    from the sources) is a construct that keeps its props. *)
Definition Role_new (scope : path) (id : string) (props : RoleProps) : M path :=
  Construct_new scope id (RoleC props).

(** Modelled from the spec: "Key/value store entry constructor:
    (parent, id, {name, value}) -> void" ([ssm.StringParameter], missing
    from the sources). *)
Definition StringParameter_new (scope : path) (id : string)
    (parameterName : string) (stringValue : sval) : M path :=
  Construct_new scope id (StringParameterC parameterName stringValue).

(** Modelled from the spec: "Out-of-band resolver provider registry:
    getOrCreate(scope, resourceTypeTag, {codeLocation, runtimeTag,
    accessPolicies}) -> invocationHandle, deduplicated per scope+tag"
    ([CustomResourceProvider.getOrCreate], missing from the sources).  The
    spec has "A single resolver-provider is shared (find-or-create) per
    caller scope and target-resource-type pair"; the caller scope is the
    caller's stack, as in the core library: the provider is a child of the
    stack that contains [scope], named after the tag, found or created
    there.  When it is found the props of the call are not looked at, so
    the provider keeps the access policies of the call that created it. *)
Definition CustomResourceProvider_getOrCreate (scope : path) (uniqueid : string)
    (props : CustomResourceProviderProps) : M sval :=
  let id := uniqueid +:+ "CustomResourceProvider" in
  let! stack := Stack_of scope in
  let! found := tryFindChild stack id in
  let! provider :=
    match found with
    | Some p => ret p
    | None => Construct_new stack id (CustomResourceProviderC props)
    end in
  ret (Attr provider "ServiceToken").

(** Modelled from the spec: "Resolver-backed value accessor:
    (invocationHandle, attributeName) -> deferredValue" ([CustomResource]
    and its [getAttString], missing from the sources). *)
Definition CustomResource_new (scope : path) (id : string)
    (props : CustomResourceProps) : M path :=
  Construct_new scope id (CustomResourceC props).

Definition getAttString (resource : path) (attributeName : string) : sval :=
  Attr resource attributeName.

(** Modelled from the spec: "addAlias(name, options) -> aliasHandle"; the
    alias ([Alias], missing from the sources) is a construct that keeps its
    props. *)
Definition Alias_new (scope : path) (id : string) (props : AliasProps) : M path :=
  Construct_new scope id (AliasC props).

(** Modelled from the spec: the "freshness marker (current timestamp)". *)
Definition Date_now : M N := get clock.

(** The string of a value inside a template literal; a token shows as its
    marker. *)
Definition toString (v : sval) : string :=
  match v with
  | Lit s => s
  | _ => "${Token}"
  end.

(** ** edge-function.ts *)

Definition EDGE_REGION : string := "us-east-1".

(** Result of creating an in-region or cross-region function *)
Record FunctionConfig := {
  fc_edgeFunction : path;
  fc_currentVersion : path;
  fc_edgeArn : sval;
  fc_functionStack : path }.

Record EdgeFunction := {
  base : Resource;
  edgeArn : sval;
  functionName : sval;
  functionArn : sval;
  grantPrincipal : option path;
  isBoundToVpc : bool;
  lambda : path;
  permissionsNode : path;
  role : option path;
  version : sval;
  functionStack : path;
  currentVersion : path }.

Definition defaultLambdaRole (scope : path) (id : string) : M path :=
  Role_new scope (id +:+ "ServiceRole")
    {| assumedBy :=
         CompositePrincipal
           [ServicePrincipal "lambda.amazonaws.com";
            ServicePrincipal "edgelambda.amazonaws.com"];
       managedPolicies :=
         [fromAwsManagedPolicyName "service-role/AWSLambdaBasicExecutionRole"] |}.

(** [CrossRegionLambdaStack.addEdgeFunction] *)
Definition addEdgeFunction (this : path) (id parameterName : string)
    (props : FunctionProps) : M (path * path) :=
  let! role :=
    match fp_role props with
    | Some r => ret r
    | None => defaultLambdaRole this id
    end in
  let! edgeFunction := Function_new this id (with_role props role) in
  let! currentVersion := Function_currentVersion edgeFunction in
  let! _ := StringParameter_new edgeFunction "Parameter" parameterName
              (Version_edgeArn currentVersion) in
  ret (edgeFunction, currentVersion).

(** The call [functionStack.addEdgeFunction(...)]: [edgeStack] hands the
    child it found through an unchecked cast, and only a
    [CrossRegionLambdaStack] has the method. *)
Definition call_addEdgeFunction (functionStack : path) (id parameterName : string)
    (props : FunctionProps) : M (path * path) :=
  fun w =>
    match lookup (constructs w) functionStack with
    | Some (StackC true _ _) => addEdgeFunction functionStack id parameterName props w
    | _ => (w, Throw "TypeError: functionStack.addEdgeFunction is not a function")
    end.

Definition getCrossRegionSupportSynthesizer (this : Resource)
    : M (option synthesizer) :=
  let! synth := Stack_synthesizer (stack this) in
  ret (match synth with
       | DefaultStackSynthesizer _ deploy exec =>
           Some (DefaultStackSynthesizer true deploy exec)
       | OtherSynthesizer => None
       end).

Definition edgeStackId (region : string) : string :=
  "edge-lambda-stack-" +:+ region.

Definition edgeStack (this : Resource) : M path :=
  let stage := node_root in
  let! isStage := Stage_isStage stage in
  if negb isStage then
    throw "stacks which use EdgeFunctions must be part of a CDK app or stage"
  else
    let region := env_region this in
    if isUnresolved region then
      throw "stacks which use EdgeFunctions must have an explicitly set region"
    else
      let id := edgeStackId (toString region) in
      let! found := tryFindChild stage id in
      match found with
      | Some edgeStack => ret edgeStack
      | None =>
          let! synthesizer := getCrossRegionSupportSynthesizer this in
          CrossRegionLambdaStack_new stage id
            {| sp_synthesizer := synthesizer;
               sp_env_region := Lit EDGE_REGION |}
      end.

Definition parameterNameOf (id : string) : string := "EdgeFunctionArn" +:+ id.

Definition parameterArnOf (stack : path) (parameterName : string) : sval :=
  Stack_formatArn stack
    {| arn_service := "ssm";
       arn_region := EDGE_REGION;
       arn_resource := "parameter";
       arn_resourceName := parameterName |}.

Definition readerResourceType : string := "Custom::CrossRegionStringParameterReader".

(** Create a support stack and function in us-east-1, and a SSM reader
    in-region *)
Definition createCrossRegionFunction (this : Resource) (id : string)
    (props : FunctionProps) : M FunctionConfig :=
  let parameterName := parameterNameOf id in
  let! functionStack := edgeStack this in
  let! _ := Stack_addDependency (stack this) functionStack in
  let! fv := call_addEdgeFunction functionStack id parameterName props in
  let parameterArn := parameterArnOf (stack this) parameterName in
  let resourceType := readerResourceType in
  let! serviceToken :=
    CustomResourceProvider_getOrCreate (node this) resourceType
      {| codeDirectory := "edge-function";
         providerRuntime := "nodejs12";
         policyStatements :=
           [{| ps_Effect := "Allow";
               ps_Resource := parameterArn;
               ps_Action := ["ssm:GetParameter"] |}] |} in
  let! now := Date_now in
  let! resource :=
    CustomResource_new (node this) "ArnReader"
      {| cr_resourceType := resourceType;
         cr_serviceToken := serviceToken;
         cr_properties :=
           {| Region := EDGE_REGION;
              ParameterName := parameterName;
              RefreshEachDeploy := now |} |} in
  let edgeArn := getAttString resource "FunctionArn" in
  ret {| fc_edgeFunction := fst fv;
         fc_currentVersion := snd fv;
         fc_edgeArn := edgeArn;
         fc_functionStack := functionStack |}.

(** Create a function in-region *)
Definition createInRegionFunction (this : Resource) (id : string)
    (props : FunctionProps) : M FunctionConfig :=
  let! role :=
    match fp_role props with
    | Some r => ret r
    | None => defaultLambdaRole (node this) id
    end in
  let! edgeFunction := Function_new (node this) "Fn" (with_role props role) in
  let! currentVersion := Function_currentVersion edgeFunction in
  ret {| fc_edgeFunction := edgeFunction;
         fc_currentVersion := currentVersion;
         fc_edgeArn := Version_edgeArn currentVersion;
         fc_functionStack := stack this |}.

Definition regionIsUsEast1 (region : sval) : bool :=
  negb (isUnresolved region) && strictEq region "us-east-1".

(** The constructor.  The field [role] is declared and never assigned. *)
Definition EdgeFunction_new (scope : path) (id : string) (props : FunctionProps)
    : M EdgeFunction :=
  let! this := Resource_new scope id in
  let! region := Stack_region (stack this) in
  let! cfg :=
    if regionIsUsEast1 region
    then createInRegionFunction this id props
    else createCrossRegionFunction this id props in
  let! lambdaRole := Function_role (fc_edgeFunction cfg) in
  ret {| base := this;
         edgeArn := fc_edgeArn cfg;
         functionName := Function_functionName (fc_edgeFunction cfg);
         functionArn := fc_edgeArn cfg;
         grantPrincipal := lambdaRole;
         isBoundToVpc := false;
         lambda := fc_edgeFunction cfg;
         permissionsNode := fc_edgeFunction cfg;
         role := None;
         version := extractQualifierFromArn (fc_edgeArn cfg);
         functionStack := fc_functionStack cfg;
         currentVersion := fc_currentVersion cfg |}.

Definition noAliasOptions : AliasOptions :=
  {| ao_description := None;
     ao_additionalVersions := [];
     ao_provisionedConcurrentExecutions := None |}.

Definition addAlias (this : EdgeFunction) (aliasName : string)
    (options : option AliasOptions) : M path :=
  Alias_new (functionStack this) ("Alias" +:+ aliasName)
    {| ap_aliasName := aliasName;
       ap_version := currentVersion this;
       ap_options := match options with Some o => o | None => noAliasOptions end |}.

Record Connections := { securityGroups : list path }.

(** Not supported. Connections are only applicable to VPC-enabled functions. *)
Definition connections (this : EdgeFunction) : M Connections :=
  throw "Lambda@Edge does not support connections".

Definition latestVersion (this : EdgeFunction) : M path :=
  throw "$LATEST function version cannot be used for Lambda@Edge".

(** The metric accessors of the underlying function ([IFunction], declared in
    function-base.ts, which is not among the sources). *)
Class IFunction (Metric : Type) := {
  fn_metric : path -> string -> option MetricOptions -> Metric;
  fn_metricDuration : path -> option MetricOptions -> Metric;
  fn_metricErrors : path -> option MetricOptions -> Metric;
  fn_metricInvocations : path -> option MetricOptions -> Metric;
  fn_metricThrottles : path -> option MetricOptions -> Metric }.

(** [{ ...props, region: EdgeFunction.EDGE_REGION }] *)
Definition withEdgeRegion (props : option MetricOptions) : MetricOptions :=
  match props with
  | Some o =>
      {| mo_account := mo_account o;
         mo_color := mo_color o;
         mo_dimensions := mo_dimensions o;
         mo_label := mo_label o;
         mo_period := mo_period o;
         mo_region := Some EDGE_REGION;
         mo_statistic := mo_statistic o;
         mo_unit := mo_unit o |}
  | None =>
      {| mo_account := None;
         mo_color := None;
         mo_dimensions := [];
         mo_label := None;
         mo_period := None;
         mo_region := Some EDGE_REGION;
         mo_statistic := None;
         mo_unit := None |}
  end.

Section Metrics.
Context {Metric : Type} `{IFunction Metric}.

Definition metric (this : EdgeFunction) (metricName : string)
      (props : option MetricOptions) : Metric :=
    fn_metric (lambda this) metricName (Some (withEdgeRegion props)).

Definition metricDuration (this : EdgeFunction) (props : option MetricOptions)
      : Metric :=
    fn_metricDuration (lambda this) (Some (withEdgeRegion props)).

Definition metricErrors (this : EdgeFunction) (props : option MetricOptions)
      : Metric :=
    fn_metricErrors (lambda this) (Some (withEdgeRegion props)).

Definition metricInvocations (this : EdgeFunction) (props : option MetricOptions)
      : Metric :=
    fn_metricInvocations (lambda this) (Some (withEdgeRegion props)).

Definition metricThrottles (this : EdgeFunction) (props : option MetricOptions)
      : Metric :=
    fn_metricThrottles (lambda this) (Some (withEdgeRegion props)).
End Metrics.

(** ** Notions the statements use *)

(** [under scope p]: [p] is [scope] or lies below it. *)
Definition under (scope p : path) : Prop := exists q, p = scope ++ q.

(** The scope a construct was attached to. *)
Definition parentOf (p : path) : path := removelast p.

Definition isSome {A} (o : option A) : bool :=
  match o with
  | Some _ => true
  | None => false
  end.

(** Every construct of a tree but the root sits under a construct of the
    tree: constructs are only ever attached to constructs. *)
Definition wellFormed (w : world) : bool :=
  forallb
    (fun pc =>
       match rev (fst pc) with
       | [] => true
       | _ :: rp => isSome (lookup (constructs w) (rev rp))
       end)
    (constructs w).

(** Is the root of the tree an app or a stage? *)
Definition inStagedApp (w : world) : bool :=
  match lookup (constructs w) node_root with
  | Some AppC | Some StageC => true
  | _ => false
  end.

Definition defaultRoleProps : RoleProps :=
  {| assumedBy :=
       CompositePrincipal
         [ServicePrincipal "lambda.amazonaws.com";
          ServicePrincipal "edgelambda.amazonaws.com"];
     managedPolicies :=
       [fromAwsManagedPolicyName "service-role/AWSLambdaBasicExecutionRole"] |}.

Definition providerId : string := readerResourceType +:+ "CustomResourceProvider".

Definition notRegisteredError : string :=
  "stacks which use EdgeFunctions must be part of a CDK app or stage".

Definition noRegionError : string :=
  "stacks which use EdgeFunctions must have an explicitly set region".

(** The props the cross-region path hands to the provider registry and to
    the reader. *)
Definition readerProviderProps (stack : path) (id : string)
    : CustomResourceProviderProps :=
  {| codeDirectory := "edge-function";
     providerRuntime := "nodejs12";
     policyStatements :=
       [{| ps_Effect := "Allow";
           ps_Resource := parameterArnOf stack (parameterNameOf id);
           ps_Action := ["ssm:GetParameter"] |}] |}.

Definition readerProps (stack : path) (id : string) (now : N) : CustomResourceProps :=
  {| cr_resourceType := readerResourceType;
     cr_serviceToken := Attr (stack ++ [providerId]) "ServiceToken";
     cr_properties :=
       {| Region := EDGE_REGION;
          ParameterName := parameterNameOf id;
          RefreshEachDeploy := now |} |}.

(** Equality of deferred strings, component by component. *)
Definition ArnComponents_eqb (a b : ArnComponents) : bool :=
  String.eqb (arn_service a) (arn_service b) &&
  String.eqb (arn_region a) (arn_region b) &&
  String.eqb (arn_resource a) (arn_resource b) &&
  String.eqb (arn_resourceName a) (arn_resourceName b).

Fixpoint sval_eqb (a b : sval) : bool :=
  match a, b with
  | Lit x, Lit y => String.eqb x y
  | PseudoRegion, PseudoRegion => true
  | Attr p x, Attr q y => path_eqb p q && String.eqb x y
  | FormatArn s c, FormatArn t d => path_eqb s t && ArnComponents_eqb c d
  | QualifierOf x, QualifierOf y => sval_eqb x y
  | _, _ => false
  end.

(** Read access: does the statement allow ssm:GetParameter on [arn], and
    does the provider behind a reader's service token hold such a
    statement? *)
Definition allowsGetParameter (statement : PolicyStatement) (arn : sval) : bool :=
  String.eqb (ps_Effect statement) "Allow" &&
  sval_eqb (ps_Resource statement) arn &&
  existsb (String.eqb "ssm:GetParameter") (ps_Action statement).

Definition mayRead (w : world) (serviceToken arn : sval) : bool :=
  match serviceToken with
  | Attr provider _ =>
      match lookup (constructs w) provider with
      | Some (CustomResourceProviderC pp) =>
          existsb (fun statement => allowsGetParameter statement arn)
            (policyStatements pp)
      | _ => false
      end
  | _ => false
  end.

(** ** How a computation changes the tree

    Every call either leaves the tree alone, attaches a construct at a free
    path, or records a dependency.  [grows P D w w'] says that [w'] comes
    from [w] by such steps, every attached construct satisfying [P] and every
    recorded edge [D]. *)

Inductive grows (P : path -> construct -> Prop) (D : path -> path -> Prop)
  : world -> world -> Prop :=
| grows_refl w : grows P D w w
| grows_attach w w' p c :
    grows P D w w' -> lookup (constructs w') p = None -> P p c ->
    grows P D w (attach p c w')
| grows_depend w w' s t :
    grows P D w w' -> D s t -> grows P D w (depend s t w').

Definition anyConstruct : path -> construct -> Prop := fun _ _ => True.
Definition anyEdge : path -> path -> Prop := fun _ _ => True.
Definition noEdge : path -> path -> Prop := fun _ _ => False.

(** What [addEdgeFunction] attaches under the support stack [s] for a
    facade with the id [id]. *)
Definition edgeFunctionFootprint (s : path) (id : string) (p : path) (c : construct)
    : Prop :=
  (p = s ++ [id +:+ "ServiceRole"] /\ c = RoleC defaultRoleProps) \/
  (p = s ++ [id] /\ exists fp, c = FunctionC fp) \/
  (p = s ++ [id; "CurrentVersion"] /\ c = VersionC (s ++ [id])) \/
  (p = s ++ [id; "Parameter"] /\ exists n v, c = StringParameterC n v).

(** What the in-region path attaches under the facade [this]. *)
Definition inRegionFootprint (this : path) (id : string) (p : path) (c : construct)
    : Prop :=
  (p = this ++ [id +:+ "ServiceRole"] /\ c = RoleC defaultRoleProps) \/
  (p = this ++ ["Fn"] /\ exists fp, c = FunctionC fp) \/
  (p = this ++ ["Fn"; "CurrentVersion"] /\ c = VersionC (this ++ ["Fn"])).

(** What the cross-region path attaches: the support stack [s], its part
    for this facade, the reader under the facade [this], and the reader's
    provider under the caller's stack [stack]. *)
Definition crossRegionFootprint (this stack s : path) (id : string) (p : path)
    (c : construct) : Prop :=
  (p = s /\ exists sy, c = StackC true (Lit EDGE_REGION) sy) \/
  edgeFunctionFootprint s id p c \/
  (p = stack ++ [providerId] /\ exists pp, c = CustomResourceProviderC pp) \/
  (p = this ++ ["ArnReader"] /\ exists cp, c = CustomResourceC cp).

(** ** Example trees *)

Definition app0 : world :=
  {| constructs :=
       [ (["Agnostic"], StackC false PseudoRegion OtherSynthesizer);
         (["East"], StackC false (Lit "us-east-1") OtherSynthesizer);
         (["StackB"],
          StackC false (Lit "ap-south-1")
            (DefaultStackSynthesizer false "deploy-role" "exec-role"));
         (["StackA"], StackC false (Lit "eu-west-1") OtherSynthesizer);
         ([], AppC) ];
     dependencies := [];
     clock := 1604275200000%N;
     defaultSynthesizer := OtherSynthesizer |}.

(** A stack that is its own root: no app, no stage. *)
Definition lone0 : world :=
  {| constructs := [ ([], StackC false (Lit "eu-west-1") OtherSynthesizer) ];
     dependencies := [];
     clock := 1604275200000%N;
     defaultSynthesizer := OtherSynthesizer |}.

Definition props0 : FunctionProps :=
  {| fp_runtime := "nodejs12.x";
     fp_handler := "index.handler";
     fp_code := "asset";
     fp_functionName := None;
     fp_role := None;
     fp_vpc := None |}.

Definition propsVpc : FunctionProps :=
  {| fp_runtime := "nodejs12.x";
     fp_handler := "index.handler";
     fp_code := "asset";
     fp_functionName := None;
     fp_role := Some ["StackA"; "MyRole"];
     fp_vpc := Some ["StackA"; "Vpc"] |}.

(** The facade Fn1 placed from StackA (eu-west-1) of [app0], and the tree
    after its construction. *)
Definition worldA1 : world :=
  Eval vm_compute in fst (EdgeFunction_new ["StackA"] "Fn1" props0 app0).

Definition facadeA1 : EdgeFunction :=
  {| base :=
       {| node := ["StackA"; "Fn1"];
          stack := ["StackA"];
          env_region := Lit "eu-west-1" |};
     edgeArn := Attr ["StackA"; "Fn1"; "ArnReader"] "FunctionArn";
     functionName := Attr ["edge-lambda-stack-eu-west-1"; "Fn1"] "functionName";
     functionArn := Attr ["StackA"; "Fn1"; "ArnReader"] "FunctionArn";
     grantPrincipal := Some ["edge-lambda-stack-eu-west-1"; "Fn1ServiceRole"];
     isBoundToVpc := false;
     lambda := ["edge-lambda-stack-eu-west-1"; "Fn1"];
     permissionsNode := ["edge-lambda-stack-eu-west-1"; "Fn1"];
     role := None;
     version := QualifierOf (Attr ["StackA"; "Fn1"; "ArnReader"] "FunctionArn");
     functionStack := ["edge-lambda-stack-eu-west-1"];
     currentVersion := ["edge-lambda-stack-eu-west-1"; "Fn1"; "CurrentVersion"] |}.

(** The facade Fn1 placed from East (us-east-1) of [app0]. *)
Definition worldEast : world :=
  Eval vm_compute in fst (EdgeFunction_new ["East"] "Fn1" props0 app0).

Definition facadeEast : EdgeFunction :=
  {| base :=
       {| node := ["East"; "Fn1"];
          stack := ["East"];
          env_region := Lit "us-east-1" |};
     edgeArn := Attr ["East"; "Fn1"; "Fn"; "CurrentVersion"] "edgeArn";
     functionName := Attr ["East"; "Fn1"; "Fn"] "functionName";
     functionArn := Attr ["East"; "Fn1"; "Fn"; "CurrentVersion"] "edgeArn";
     grantPrincipal := Some ["East"; "Fn1"; "Fn1ServiceRole"];
     isBoundToVpc := false;
     lambda := ["East"; "Fn1"; "Fn"];
     permissionsNode := ["East"; "Fn1"; "Fn"];
     role := None;
     version := QualifierOf (Attr ["East"; "Fn1"; "Fn"; "CurrentVersion"] "edgeArn");
     functionStack := ["East"];
     currentVersion := ["East"; "Fn1"; "Fn"; "CurrentVersion"] |}.

(** The facade Fn1 placed from StackA with a role and a VPC in the props. *)
Definition worldVpc : world :=
  Eval vm_compute in fst (EdgeFunction_new ["StackA"] "Fn1" propsVpc app0).

Definition facadeVpc : EdgeFunction :=
  {| base := base facadeA1;
     edgeArn := edgeArn facadeA1;
     functionName := functionName facadeA1;
     functionArn := functionArn facadeA1;
     grantPrincipal := Some ["StackA"; "MyRole"];
     isBoundToVpc := false;
     lambda := lambda facadeA1;
     permissionsNode := permissionsNode facadeA1;
     role := None;
     version := version facadeA1;
     functionStack := functionStack facadeA1;
     currentVersion := currentVersion facadeA1 |}.

(** A second facade Fn2 placed from StackA after Fn1, and one placed from
    StackB (ap-south-1) after Fn1. *)
Definition worldA2 : world :=
  Eval vm_compute in fst (EdgeFunction_new ["StackA"] "Fn2" props0 worldA1).

Definition facadeA2 : EdgeFunction :=
  {| base :=
       {| node := ["StackA"; "Fn2"];
          stack := ["StackA"];
          env_region := Lit "eu-west-1" |};
     edgeArn := Attr ["StackA"; "Fn2"; "ArnReader"] "FunctionArn";
     functionName := Attr ["edge-lambda-stack-eu-west-1"; "Fn2"] "functionName";
     functionArn := Attr ["StackA"; "Fn2"; "ArnReader"] "FunctionArn";
     grantPrincipal := Some ["edge-lambda-stack-eu-west-1"; "Fn2ServiceRole"];
     isBoundToVpc := false;
     lambda := ["edge-lambda-stack-eu-west-1"; "Fn2"];
     permissionsNode := ["edge-lambda-stack-eu-west-1"; "Fn2"];
     role := None;
     version := QualifierOf (Attr ["StackA"; "Fn2"; "ArnReader"] "FunctionArn");
     functionStack := ["edge-lambda-stack-eu-west-1"];
     currentVersion := ["edge-lambda-stack-eu-west-1"; "Fn2"; "CurrentVersion"] |}.

Definition worldB2 : world :=
  Eval vm_compute in fst (EdgeFunction_new ["StackB"] "Fn2" props0 worldA1).

Definition facadeB2 : EdgeFunction :=
  {| base :=
       {| node := ["StackB"; "Fn2"];
          stack := ["StackB"];
          env_region := Lit "ap-south-1" |};
     edgeArn := Attr ["StackB"; "Fn2"; "ArnReader"] "FunctionArn";
     functionName := Attr ["edge-lambda-stack-ap-south-1"; "Fn2"] "functionName";
     functionArn := Attr ["StackB"; "Fn2"; "ArnReader"] "FunctionArn";
     grantPrincipal := Some ["edge-lambda-stack-ap-south-1"; "Fn2ServiceRole"];
     isBoundToVpc := false;
     lambda := ["edge-lambda-stack-ap-south-1"; "Fn2"];
     permissionsNode := ["edge-lambda-stack-ap-south-1"; "Fn2"];
     role := None;
     version := QualifierOf (Attr ["StackB"; "Fn2"; "ArnReader"] "FunctionArn");
     functionStack := ["edge-lambda-stack-ap-south-1"];
     currentVersion := ["edge-lambda-stack-ap-south-1"; "Fn2"; "CurrentVersion"] |}.

(** An underlying function that answers a metric call with the call itself:
    the function asked, the metric asked for, the options received. *)
Definition recordedCall : Type := path * string * option MetricOptions.

#[local] Instance recordingFunction : IFunction recordedCall :=
  {| fn_metric := fun fn name o => (fn, name, o);
     fn_metricDuration := fun fn o => (fn, "Duration", o);
     fn_metricErrors := fun fn o => (fn, "Errors", o);
     fn_metricInvocations := fun fn o => (fn, "Invocations", o);
     fn_metricThrottles := fun fn o => (fn, "Throttles", o) |}.

Definition optionsInParis : MetricOptions :=
  {| mo_account := None;
     mo_color := None;
     mo_dimensions := [];
     mo_label := Some "errors";
     mo_period := Some 300%N;
     mo_region := Some "eu-west-3";
     mo_statistic := Some "sum";
     mo_unit := None |}.
(** ** Notions for the further properties *)

(** A computation that, whatever it returns or throws, only adds to the
    tree: constructs that satisfy [P], dependencies that satisfy [D]. *)
Definition growing {A} (P : path -> construct -> Prop) (D : path -> path -> Prop)
    (m : M A) : Prop :=
  forall w w' r, m w = (w', r) -> grows P D w w'.

Definition isRole (c : construct) : bool :=
  match c with
  | RoleC _ => true
  | _ => false
  end.

Definition duplicateName (id : string) : string :=
  "There is already a Construct with name '" +:+ id +:+ "'".

(** Fn1 placed once more, from StackB (ap-south-1), after Fn1 of StackA. *)
Definition worldB1 : world :=
  Eval vm_compute in fst (EdgeFunction_new ["StackB"] "Fn1" props0 worldA1).

Definition facadeB1 : EdgeFunction :=
  {| base :=
       {| node := ["StackB"; "Fn1"];
          stack := ["StackB"];
          env_region := Lit "ap-south-1" |};
     edgeArn := Attr ["StackB"; "Fn1"; "ArnReader"] "FunctionArn";
     functionName := Attr ["edge-lambda-stack-ap-south-1"; "Fn1"] "functionName";
     functionArn := Attr ["StackB"; "Fn1"; "ArnReader"] "FunctionArn";
     grantPrincipal := Some ["edge-lambda-stack-ap-south-1"; "Fn1ServiceRole"];
     isBoundToVpc := false;
     lambda := ["edge-lambda-stack-ap-south-1"; "Fn1"];
     permissionsNode := ["edge-lambda-stack-ap-south-1"; "Fn1"];
     role := None;
     version := QualifierOf (Attr ["StackB"; "Fn1"; "ArnReader"] "FunctionArn");
     functionStack := ["edge-lambda-stack-ap-south-1"];
     currentVersion := ["edge-lambda-stack-ap-south-1"; "Fn1"; "CurrentVersion"] |}.




(** A facade named like the default role of Fn1, placed from StackB
    (ap-south-1) after Fn1 of StackA. *)
Definition worldBR : world :=
  Eval vm_compute in
    fst (EdgeFunction_new ["StackB"] "Fn1ServiceRole" props0 worldA1).

Definition facadeBR : EdgeFunction :=
  {| base :=
       {| node := ["StackB"; "Fn1ServiceRole"];
          stack := ["StackB"];
          env_region := Lit "ap-south-1" |};
     edgeArn := Attr ["StackB"; "Fn1ServiceRole"; "ArnReader"] "FunctionArn";
     functionName :=
       Attr ["edge-lambda-stack-ap-south-1"; "Fn1ServiceRole"] "functionName";
     functionArn := Attr ["StackB"; "Fn1ServiceRole"; "ArnReader"] "FunctionArn";
     grantPrincipal :=
       Some ["edge-lambda-stack-ap-south-1"; "Fn1ServiceRoleServiceRole"];
     isBoundToVpc := false;
     lambda := ["edge-lambda-stack-ap-south-1"; "Fn1ServiceRole"];
     permissionsNode := ["edge-lambda-stack-ap-south-1"; "Fn1ServiceRole"];
     role := None;
     version :=
       QualifierOf (Attr ["StackB"; "Fn1ServiceRole"; "ArnReader"] "FunctionArn");
     functionStack := ["edge-lambda-stack-ap-south-1"];
     currentVersion :=
       ["edge-lambda-stack-ap-south-1"; "Fn1ServiceRole"; "CurrentVersion"] |}.

(** A facade named like the default role of Fn1, placed from StackA
    (eu-west-1) of [app0], and Fn1 placed from StackB after it. *)
Definition worldAR : world :=
  Eval vm_compute in fst (EdgeFunction_new ["StackA"] "Fn1ServiceRole" props0 app0).

Definition facadeAR : EdgeFunction :=
  {| base :=
       {| node := ["StackA"; "Fn1ServiceRole"];
          stack := ["StackA"];
          env_region := Lit "eu-west-1" |};
     edgeArn := Attr ["StackA"; "Fn1ServiceRole"; "ArnReader"] "FunctionArn";
     functionName :=
       Attr ["edge-lambda-stack-eu-west-1"; "Fn1ServiceRole"] "functionName";
     functionArn := Attr ["StackA"; "Fn1ServiceRole"; "ArnReader"] "FunctionArn";
     grantPrincipal :=
       Some ["edge-lambda-stack-eu-west-1"; "Fn1ServiceRoleServiceRole"];
     isBoundToVpc := false;
     lambda := ["edge-lambda-stack-eu-west-1"; "Fn1ServiceRole"];
     permissionsNode := ["edge-lambda-stack-eu-west-1"; "Fn1ServiceRole"];
     role := None;
     version :=
       QualifierOf (Attr ["StackA"; "Fn1ServiceRole"; "ArnReader"] "FunctionArn");
     functionStack := ["edge-lambda-stack-eu-west-1"];
     currentVersion :=
       ["edge-lambda-stack-eu-west-1"; "Fn1ServiceRole"; "CurrentVersion"] |}.

Definition worldARB : world :=
  Eval vm_compute in fst (EdgeFunction_new ["StackB"] "Fn1" props0 worldAR).

(** An app in which an ordinary stack already has the name that the
    support stack of eu-west-1 would get. *)
Definition squatted0 : world :=
  {| constructs :=
       [ (["edge-lambda-stack-eu-west-1"],
          StackC false (Lit "eu-west-1") OtherSynthesizer);
         (["StackA"], StackC false (Lit "eu-west-1") OtherSynthesizer);
         ([], AppC) ];
     dependencies := [];
     clock := 1604275200000%N;
     defaultSynthesizer := OtherSynthesizer |}.
(** ** Paths and lookups *)

Lemma path_eqb_refl (p : path) : path_eqb p p = true.
Proof.
  induction p as [|a p IH]; simpl; [reflexivity|].
  now rewrite String.eqb_refl, IH.
Qed.

Lemma path_eqb_eq (p q : path) : path_eqb p q = true <-> p = q.
Proof.
  split.
  - revert q. induction p as [|a p IH]; intros [|b q] H; simpl in H;
      try discriminate; [reflexivity|].
    apply andb_true_iff in H. destruct H as [Hab Hpq].
    apply String.eqb_eq in Hab. apply IH in Hpq. now subst.
  - intros ->. apply path_eqb_refl.
Qed.

Lemma path_eqb_neq (p q : path) : p <> q -> path_eqb p q = false.
Proof.
  intros Hne. destruct (path_eqb p q) eqn:E; [|reflexivity].
  apply path_eqb_eq in E. contradiction.
Qed.

Lemma lookup_cons_eq t p c : lookup ((p, c) :: t) p = Some c.
Proof. simpl. now rewrite path_eqb_refl. Qed.

Lemma lookup_cons_ne t p q c : p <> q -> lookup ((p, c) :: t) q = lookup t q.
Proof. intros Hne. simpl. now rewrite (path_eqb_neq _ _ Hne). Qed.

Lemma lookup_attach_eq w p c : lookup (constructs (attach p c w)) p = Some c.
Proof. apply lookup_cons_eq. Qed.

Lemma lookup_attach_ne w p q c :
  p <> q -> lookup (constructs (attach p c w)) q = lookup (constructs w) q.
Proof. apply lookup_cons_ne. Qed.

Lemma child_neq_root (scope : path) (id : string) : scope ++ [id] <> [].
Proof. destruct scope; discriminate. Qed.

Lemma child_inj (s1 s2 : path) (i1 i2 : string) :
  s1 ++ [i1] = s2 ++ [i2] -> s1 = s2 /\ i1 = i2.
Proof. apply app_inj_tail. Qed.

Lemma append_inj_r (a b c : string) : a +:+ b = a +:+ c -> b = c.
Proof.
  induction a as [|ch a IH]; simpl; intros H; [exact H|].
  injection H as H. now apply IH.
Qed.


Lemma parameterNameOf_inj id1 id2 :
  parameterNameOf id1 = parameterNameOf id2 -> id1 = id2.
Proof. apply append_inj_r. Qed.

Lemma edgeStackId_inj r1 r2 : edgeStackId r1 = edgeStackId r2 -> r1 = r2.
Proof. apply append_inj_r. Qed.

Lemma grows_trans P D w1 w2 w3 :
  grows P D w1 w2 -> grows P D w2 w3 -> grows P D w1 w3.
Proof.
  intros H12 H23. induction H23.
  - exact H12.
  - apply grows_attach; auto.
  - apply grows_depend; auto.
Qed.
Arguments grows_trans {_ _ _ _ _}.

Lemma grows_weaken (P Q : path -> construct -> Prop) (D E : path -> path -> Prop) w w' :
  (forall p c, P p c -> Q p c) -> (forall s t, D s t -> E s t) ->
  grows P D w w' -> grows Q E w w'.
Proof.
  intros HPQ HDE H. induction H.
  - apply grows_refl.
  - apply grows_attach; auto.
  - apply grows_depend; auto.
Qed.

Lemma grows_any P D w w' : grows P D w w' -> grows anyConstruct anyEdge w w'.
Proof. apply grows_weaken; unfold anyConstruct, anyEdge; auto. Qed.
Arguments grows_any {_ _ _ _}.

(** What is in the tree stays in the tree, as the same construct. *)
Lemma grows_lookup P D w w' p c :
  grows P D w w' ->
  lookup (constructs w) p = Some c -> lookup (constructs w') p = Some c.
Proof.
  intros H Hp. induction H.
  - exact Hp.
  - rewrite lookup_attach_ne; [auto|].
    intros ->. rewrite (IHgrows Hp) in H0. discriminate.
  - simpl. auto.
Qed.
Arguments grows_lookup {_ _ _ _ _ _}.

(** What is new in the tree satisfies [P]. *)
Lemma grows_new P D w w' p c :
  grows P D w w' ->
  lookup (constructs w) p = None -> lookup (constructs w') p = Some c -> P p c.
Proof.
  intros H Hnone Hsome. induction H.
  - rewrite Hnone in Hsome. discriminate.
  - destruct (path_eqb p0 p) eqn:E.
    + apply path_eqb_eq in E. subst p0.
      rewrite lookup_attach_eq in Hsome. now injection Hsome as ->.
    + simpl in Hsome. rewrite E in Hsome. auto.
  - simpl in Hsome. auto.
Qed.
Arguments grows_new {_ _ _ _ _ _}.

Lemma grows_absent P D w w' p :
  grows P D w w' ->
  lookup (constructs w) p = None -> (forall c, ~ P p c) ->
  lookup (constructs w') p = None.
Proof.
  intros H Hnone HP.
  destruct (lookup (constructs w') p) as [c|] eqn:E; [|reflexivity].
  exfalso. apply (HP c). eapply grows_new; eauto.
Qed.

Lemma grows_noEdge P w w' :
  grows P noEdge w w' -> dependencies w' = dependencies w.
Proof.
  intros H. induction H; simpl; auto. contradiction.
Qed.
Arguments grows_noEdge {_ _ _}.

Lemma grows_clock P D w w' : grows P D w w' -> clock w' = clock w.
Proof. intros H. induction H; simpl; auto. Qed.
Arguments grows_clock {_ _ _ _}.

(** ** Reading a computation backwards *)

Lemma bind_ok {A B} (m : M A) (k : A -> M B) w w' b :
  bind m k w = (w', Ok b) ->
  exists w1 a, m w = (w1, Ok a) /\ k a w1 = (w', Ok b).
Proof.
  unfold bind. destruct (m w) as [w1 [a|e]]; intros H.
  - now exists w1, a.
  - discriminate.
Qed.

Lemma ret_ok {A} (a b : A) w w' : ret a w = (w', Ok b) -> w' = w /\ b = a.
Proof. unfold ret. intros H. injection H as <- <-. auto. Qed.

Lemma get_ok {A} (f : world -> A) w w' b :
  get f w = (w', Ok b) -> w' = w /\ b = f w.
Proof. unfold get. intros H. injection H as <- <-. auto. Qed.

Ltac bind_inv H :=
  let w1 := fresh "w" in
  let a := fresh "a" in
  let Ha := fresh "Hstep" in
  apply bind_ok in H; destruct H as (w1 & a & Ha & H).

Ltac bind_inv_as H a :=
  let w1 := fresh "w" in
  let Ha := fresh "Hstep" in
  apply bind_ok in H; destruct H as (w1 & a & Ha & H).

Ltac bind_inv_in H wa a Ha :=
  apply bind_ok in H; destruct H as (wa & a & Ha & H).

Lemma Construct_new_ok scope id c w w' p :
  Construct_new scope id c w = (w', Ok p) ->
  p = scope ++ [id] /\ lookup (constructs w) p = None /\ w' = attach p c w.
Proof.
  unfold Construct_new.
  destruct (lookup (constructs w) (scope ++ [id])) eqn:E; intros H.
  - discriminate.
  - injection H as <- <-. auto.
Qed.

Lemma tryFindChild_ok scope id w w' r :
  tryFindChild scope id w = (w', Ok r) ->
  w' = w /\
  ((r = Some (scope ++ [id]) /\ lookup (constructs w) (scope ++ [id]) <> None) \/
   (r = None /\ lookup (constructs w) (scope ++ [id]) = None)).
Proof.
  unfold tryFindChild.
  destruct (lookup (constructs w) (scope ++ [id])) eqn:E; intros H;
    injection H as <- <-; split; auto.
  left. split; [reflexivity|discriminate].
Qed.

Lemma enclosingStack_ok t rp s :
  enclosingStack t rp = Some s ->
  (exists b r sy, lookup t s = Some (StackC b r sy)) /\ under s (rev rp).
Proof.
  induction rp as [|x rp IH]; simpl.
  - destruct (lookup t []) as [[]|] eqn:E; try discriminate.
    intros H. injection H as <-. split; [eauto|]. exists []. reflexivity.
  - destruct (lookup t (rev rp ++ [x])) as [c|] eqn:E.
    + destruct c; try (intros H; apply IH in H; destruct H as [H1 [q ->]];
        split; [exact H1|]; exists (q ++ [x]); now rewrite app_assoc).
      intros H. injection H as <-. split; [eauto|].
      exists []. now rewrite app_nil_r.
    + intros H. apply IH in H. destruct H as [H1 [q ->]].
      split; [exact H1|]. exists (q ++ [x]). now rewrite app_assoc.
Qed.

Lemma Stack_of_ok p w w' s :
  Stack_of p w = (w', Ok s) ->
  w' = w /\ (exists b r sy, lookup (constructs w) s = Some (StackC b r sy)) /\
  under s p.
Proof.
  unfold Stack_of.
  destruct (enclosingStack (constructs w) (rev p)) eqn:E; intros H;
    [|discriminate].
  injection H as <- <-. apply enclosingStack_ok in E.
  rewrite rev_involutive in E. tauto.
Qed.

(** A tree that keeps its constructs and gets no new stack deeper than
    [st] keeps [st] as the nearest stack. *)
Lemma enclosingStack_stable t t' rp st :
  (forall p c, lookup t p = Some c -> lookup t' p = Some c) ->
  (forall p c,
     lookup t p = None -> lookup t' p = Some c -> isStack c = true ->
     length p <= length st) ->
  enclosingStack t rp = Some st -> enclosingStack t' rp = Some st.
Proof.
  intros Hkeep Hnew. induction rp as [|x rp IH]; simpl.
  - destruct (lookup t []) as [c|] eqn:E; [|discriminate].
    rewrite (Hkeep _ _ E). auto.
  - destruct (lookup t (rev rp ++ [x])) as [c|] eqn:E.
    + rewrite (Hkeep _ _ E). destruct c; auto.
    + intros H. pose proof (enclosingStack_ok _ _ _ H) as [_ [q Hq]].
      destruct (lookup t' (rev rp ++ [x])) as [c'|] eqn:E'; [|auto].
      destruct c'; auto.
      specialize (Hnew _ _ E E' eq_refl).
      rewrite Hq, !length_app in Hnew. simpl in Hnew. lia.
Qed.

Lemma Stack_of_grows P D w w' p st :
  grows P D w w' ->
  (forall q c, P q c -> isStack c = true -> length q <= length st) ->
  Stack_of p w = (w, Ok st) -> Stack_of p w' = (w', Ok st).
Proof.
  intros G Hnew. unfold Stack_of.
  destruct (enclosingStack (constructs w) (rev p)) as [s|] eqn:E; [|discriminate].
  intros H. injection H as ->.
  rewrite (enclosingStack_stable (constructs w) (constructs w') (rev p) st);
    [reflexivity| | |exact E].
  - intros q c. apply (grows_lookup G).
  - intros q c Hn Hs. apply Hnew. exact (grows_new G Hn Hs).
Qed.

Lemma Stack_region_ok s w w' r :
  Stack_region s w = (w', Ok r) ->
  w' = w /\ exists b sy, lookup (constructs w) s = Some (StackC b r sy).
Proof.
  unfold Stack_region.
  destruct (lookup (constructs w) s) as [[]|]; intros H; try discriminate.
  injection H as <- <-. eauto.
Qed.

Lemma Stack_synthesizer_ok s w w' sy :
  Stack_synthesizer s w = (w', Ok sy) -> w' = w.
Proof.
  unfold Stack_synthesizer.
  destruct (lookup (constructs w) s) as [[]|]; intros H; try discriminate.
  now injection H as <- <-.
Qed.

Lemma Stage_isStage_ok w w' b :
  Stage_isStage node_root w = (w', Ok b) -> w' = w /\ b = inStagedApp w.
Proof.
  unfold Stage_isStage, inStagedApp.
  destruct (lookup (constructs w) node_root) as [[]|]; intros H;
    injection H as <- <-; auto.
Qed.

Lemma Function_role_ok fn props w :
  lookup (constructs w) fn = Some (FunctionC props) ->
  Function_role fn w = (w, Ok (fp_role props)).
Proof. unfold Function_role. now intros ->. Qed.

Lemma Function_role_same fn w w' r : Function_role fn w = (w', Ok r) -> w' = w.
Proof.
  unfold Function_role.
  destruct (lookup (constructs w) fn) as [[]|]; intros H; now injection H as <- <-.
Qed.

Lemma Function_currentVersion_ok fn w w' v :
  Function_currentVersion fn w = (w', Ok v) ->
  v = fn ++ ["CurrentVersion"] /\
  (w' = w \/
   (lookup (constructs w) v = None /\ w' = attach v (VersionC fn) w)).
Proof.
  unfold Function_currentVersion. intros H. bind_inv H.
  apply tryFindChild_ok in Hstep. destruct Hstep as [-> [[-> _]|[-> Hnone]]].
  - apply ret_ok in H. destruct H as [-> ->]. auto.
  - apply Construct_new_ok in H. destruct H as (-> & _ & ->). auto.
Qed.

(** ** The base constructor and the support stack *)

Lemma Resource_new_ok scope id w w1 this :
  Resource_new scope id w = (w1, Ok this) ->
  node this = scope ++ [id] /\
  lookup (constructs w) (node this) = None /\
  w1 = attach (node this) EdgeFunctionC w /\
  (exists b sy,
     lookup (constructs w) (stack this) = Some (StackC b (env_region this) sy)) /\
  stack this <> node this /\
  under (stack this) (node this).
Proof.
  unfold Resource_new. intros H.
  bind_inv_as H n. apply Construct_new_ok in Hstep. destruct Hstep as (-> & Hnone & ->).
  bind_inv_as H s. apply Stack_of_ok in Hstep. destruct Hstep as (-> & (b & r & sy & Hs) & Hu).
  bind_inv_as H r'. apply Stack_region_ok in Hstep. destruct Hstep as (-> & b' & sy' & Hs').
  apply ret_ok in H. destruct H as [-> ->]. simpl.
  assert (Hne : s <> scope ++ [id]).
  { intros ->. rewrite lookup_attach_eq in Hs. discriminate. }
  rewrite lookup_attach_ne in Hs' by auto.
  repeat split; eauto.
Qed.

Lemma Resource_new_stack_after scope id w w1 this :
  Resource_new scope id w = (w1, Ok this) ->
  exists b sy,
    lookup (constructs w1) (stack this) = Some (StackC b (env_region this) sy).
Proof.
  intros H. apply Resource_new_ok in H.
  destruct H as (_ & _ & -> & (b & sy & Hs) & Hne & _).
  exists b, sy. rewrite lookup_attach_ne; auto.
Qed.

Lemma Resource_new_stack_of scope id w w1 this :
  Resource_new scope id w = (w1, Ok this) ->
  Stack_of (node this) w1 = (w1, Ok (stack this)).
Proof.
  unfold Resource_new. intros H.
  bind_inv_in H wa n Hn. apply Construct_new_ok in Hn. destruct Hn as (-> & _ & ->).
  bind_inv_in H wb s Hs. pose proof (Stack_of_ok _ _ _ _ Hs) as (-> & _).
  bind_inv_in H wc r Hr. apply Stack_region_ok in Hr. destruct Hr as (-> & _).
  apply ret_ok in H. destruct H as [-> ->]. exact Hs.
Qed.

Lemma inStagedApp_attach scope id c w :
  inStagedApp (attach (scope ++ [id]) c w) = inStagedApp w.
Proof.
  unfold inStagedApp, node_root.
  rewrite lookup_attach_ne; [reflexivity|apply child_neq_root].
Qed.

Lemma getCrossRegionSupportSynthesizer_ok this w w' sy :
  getCrossRegionSupportSynthesizer this w = (w', Ok sy) -> w' = w.
Proof.
  unfold getCrossRegionSupportSynthesizer. intros H. bind_inv H.
  apply Stack_synthesizer_ok in Hstep. subst.
  apply ret_ok in H. tauto.
Qed.

Lemma edgeStack_ok this w w' s :
  edgeStack this w = (w', Ok s) ->
  inStagedApp w = true /\
  exists r,
    env_region this = Lit r /\ s = [edgeStackId r] /\
    ((lookup (constructs w) s <> None /\ w' = w) \/
     (lookup (constructs w) s = None /\
      exists sy, w' = attach s (StackC true (Lit EDGE_REGION) sy) w)).
Proof.
  unfold edgeStack. intros H. bind_inv H.
  apply Stage_isStage_ok in Hstep. destruct Hstep as [-> ->].
  destruct (inStagedApp w); simpl in H; [|discriminate].
  split; [reflexivity|].
  destruct (env_region this) as [r| | | |]; simpl in H; try discriminate.
  exists r. split; [reflexivity|].
  bind_inv H. apply tryFindChild_ok in Hstep.
  destruct Hstep as [-> [[-> Hsome]|[-> Hnone]]].
  - apply ret_ok in H. destruct H as [-> ->]. auto.
  - bind_inv H. apply getCrossRegionSupportSynthesizer_ok in Hstep. subst.
    unfold CrossRegionLambdaStack_new in H. bind_inv H.
    apply get_ok in Hstep. destruct Hstep as [-> ->].
    apply Construct_new_ok in H. destruct H as (-> & _ & ->).
    split; [reflexivity|]. right. split; [exact Hnone|]. eauto.
Qed.

(** The support stack is looked up under a name made of the caller's region
    alone; a tree that already holds it is left as it is. *)
Lemma edgeStack_found this w r c :
  inStagedApp w = true -> env_region this = Lit r ->
  lookup (constructs w) [edgeStackId r] = Some c ->
  edgeStack this w = (w, Ok [edgeStackId r]).
Proof.
  intros Hstage Hr Hc. unfold edgeStack, bind, Stage_isStage.
  unfold inStagedApp in Hstage.
  destruct (lookup (constructs w) node_root) as [[]|]; try discriminate;
    simpl; rewrite Hr; simpl; unfold tryFindChild; simpl; rewrite Hc; reflexivity.
Qed.

(** ** The two placement paths *)

Lemma attach_grows (P : path -> construct -> Prop) D w p c :
  lookup (constructs w) p = None -> P p c -> grows P D w (attach p c w).
Proof. intros Hn HP. apply grows_attach; [apply grows_refl|assumption..]. Qed.

Lemma grows_lookup_none P D w w' p :
  grows P D w w' ->
  lookup (constructs w') p = None -> lookup (constructs w) p = None.
Proof.
  intros H Hn. destruct (lookup (constructs w) p) as [c|] eqn:E; [|reflexivity].
  rewrite (grows_lookup H E) in Hn. discriminate.
Qed.
Arguments grows_lookup_none {_ _ _ _ _}.

Lemma roleStep_ok scope id props w w' r :
  match fp_role props with
  | Some r0 => ret r0
  | None => defaultLambdaRole scope id
  end w = (w', Ok r) ->
  (fp_role props = Some r /\ w' = w) \/
  (fp_role props = None /\ r = scope ++ [id +:+ "ServiceRole"] /\
   lookup (constructs w) r = None /\ w' = attach r (RoleC defaultRoleProps) w).
Proof.
  destruct (fp_role props) as [r0|]; intros H.
  - apply ret_ok in H. destruct H as [-> ->]. auto.
  - unfold defaultLambdaRole, Role_new in H.
    apply Construct_new_ok in H. destruct H as (-> & Hn & ->).
    right. auto.
Qed.

Lemma addEdgeFunction_ok s id pn props w w' fn v :
  addEdgeFunction s id pn props w = (w', Ok (fn, v)) ->
  fn = s ++ [id] /\ v = fn ++ ["CurrentVersion"] /\
  grows (edgeFunctionFootprint s id) noEdge w w' /\
  lookup (constructs w) fn = None /\
  lookup (constructs w') (fn ++ ["Parameter"]) =
    Some (StringParameterC pn (Version_edgeArn v)) /\
  lookup (constructs w) (fn ++ ["Parameter"]) = None /\
  exists r,
    lookup (constructs w') fn = Some (FunctionC (with_role props r)) /\
    (fp_role props = Some r \/
     (fp_role props = None /\ r = s ++ [id +:+ "ServiceRole"] /\
      lookup (constructs w) r = None /\
      lookup (constructs w') r = Some (RoleC defaultRoleProps))).
Proof.
  unfold addEdgeFunction. intros H.
  bind_inv_in H wr r Hrole. apply roleStep_ok in Hrole.
  bind_inv_in H wf f Hfn. unfold Function_new in Hfn.
  apply Construct_new_ok in Hfn. destruct Hfn as (-> & Hfnone & ->).
  bind_inv_in H wv v' Hver. apply Function_currentVersion_ok in Hver.
  destruct Hver as [-> Hver].
  bind_inv_in H wp p Hpar. unfold StringParameter_new in Hpar.
  apply Construct_new_ok in Hpar. destruct Hpar as (-> & Hpnone & ->).
  apply ret_ok in H. destruct H as [-> Heq]. injection Heq as -> ->.
  assert (G1 : grows (edgeFunctionFootprint s id) noEdge w wr).
  { destruct Hrole as [[_ ->]|(_ & -> & Hn & ->)]; [apply grows_refl|].
    apply attach_grows; [exact Hn|]. left. auto. }
  assert (G2 : grows (edgeFunctionFootprint s id) noEdge wr
                 (attach (s ++ [id]) (FunctionC (with_role props r)) wr)).
  { apply attach_grows; [exact Hfnone|]. right. left. eauto. }
  assert (G3 : grows (edgeFunctionFootprint s id) noEdge
                 (attach (s ++ [id]) (FunctionC (with_role props r)) wr) wv).
  { destruct Hver as [->|[Hn ->]]; [apply grows_refl|].
    apply attach_grows; [exact Hn|]. right. right. left.
    rewrite <- app_assoc. auto. }
  assert (G4 : grows (edgeFunctionFootprint s id) noEdge wv
                 (attach ((s ++ [id]) ++ ["Parameter"])
                    (StringParameterC pn
                       (Version_edgeArn ((s ++ [id]) ++ ["CurrentVersion"]))) wv)).
  { apply attach_grows; [exact Hpnone|]. right. right. right.
    rewrite <- app_assoc. eauto. }
  split; [reflexivity|]. split; [reflexivity|].
  split; [exact (grows_trans (grows_trans (grows_trans G1 G2) G3) G4)|].
  split; [exact (grows_lookup_none G1 Hfnone)|].
  split; [apply lookup_attach_eq|].
  split.
  { eapply grows_lookup_none; [|exact Hpnone].
    exact (grows_trans (grows_trans G1 G2) G3). }
  exists r. split.
  { eapply grows_lookup; [exact (grows_trans G3 G4)|].
    apply lookup_attach_eq. }
  destruct Hrole as [[Hr ->]|(Hr & -> & Hn & ->)].
  - left. exact Hr.
  - right. repeat split; auto.
    eapply grows_lookup;
      [exact (grows_trans (grows_trans G2 G3) G4)|].
    apply lookup_attach_eq.
Qed.

Lemma createInRegionFunction_ok this id props w w' cfg :
  createInRegionFunction this id props w = (w', Ok cfg) ->
  fc_edgeFunction cfg = node this ++ ["Fn"] /\
  fc_currentVersion cfg = fc_edgeFunction cfg ++ ["CurrentVersion"] /\
  fc_edgeArn cfg = Version_edgeArn (fc_currentVersion cfg) /\
  fc_functionStack cfg = stack this /\
  grows (inRegionFootprint (node this) id) noEdge w w' /\
  lookup (constructs w) (fc_edgeFunction cfg) = None /\
  exists r,
    lookup (constructs w') (fc_edgeFunction cfg) = Some (FunctionC (with_role props r)) /\
    (fp_role props = Some r \/
     (fp_role props = None /\ r = node this ++ [id +:+ "ServiceRole"] /\
      lookup (constructs w) r = None /\
      lookup (constructs w') r = Some (RoleC defaultRoleProps))).
Proof.
  unfold createInRegionFunction. intros H.
  bind_inv_in H wr r Hrole. apply roleStep_ok in Hrole.
  bind_inv_in H wf f Hfn. unfold Function_new in Hfn.
  apply Construct_new_ok in Hfn. destruct Hfn as (-> & Hfnone & ->).
  bind_inv_in H wv v Hver. apply Function_currentVersion_ok in Hver.
  destruct Hver as [-> Hver].
  apply ret_ok in H. destruct H as [-> ->]. simpl.
  set (P := inRegionFootprint (node this) id).
  assert (G1 : grows P noEdge w wr).
  { destruct Hrole as [[_ ->]|(_ & -> & Hn & ->)]; [apply grows_refl|].
    apply attach_grows; [exact Hn|]. left. auto. }
  assert (G2 : grows P noEdge wr
                 (attach (node this ++ ["Fn"]) (FunctionC (with_role props r)) wr)).
  { apply attach_grows; [exact Hfnone|]. right. left. eauto. }
  assert (G3 : grows P noEdge
                 (attach (node this ++ ["Fn"]) (FunctionC (with_role props r)) wr) wv).
  { destruct Hver as [->|[Hn ->]]; [apply grows_refl|].
    apply attach_grows; [exact Hn|]. right. right.
    rewrite <- app_assoc. auto. }
  repeat (split; [reflexivity|]).
  split; [exact (grows_trans (grows_trans G1 G2) G3)|].
  split; [exact (grows_lookup_none G1 Hfnone)|].
  exists r. split.
  { eapply grows_lookup; [exact G3|]. apply lookup_attach_eq. }
  destruct Hrole as [[Hr ->]|(Hr & -> & Hn & ->)]; [left; exact Hr|].
  right. repeat split; auto.
  eapply grows_lookup; [exact (grows_trans G2 G3)|].
  apply lookup_attach_eq.
Qed.

Lemma grows_dependencies P D w w' e :
  grows P D w w' -> In e (dependencies w) -> In e (dependencies w').
Proof. intros H He. induction H; simpl; auto. Qed.
Arguments grows_dependencies {_ _ _ _ _}.

Lemma call_addEdgeFunction_ok s id pn props w w' fv :
  call_addEdgeFunction s id pn props w = (w', Ok fv) ->
  addEdgeFunction s id pn props w = (w', Ok fv) /\
  exists reg sy, lookup (constructs w) s = Some (StackC true reg sy).
Proof.
  unfold call_addEdgeFunction.
  destruct (lookup (constructs w) s) as [[| |[] reg sy| | | | | | | | |]|];
    intros H; try discriminate.
  split; [exact H|eauto].
Qed.

Lemma getOrCreate_ok scope uniqueid props w w' token :
  CustomResourceProvider_getOrCreate scope uniqueid props w = (w', Ok token) ->
  exists stack,
    Stack_of scope w = (w, Ok stack) /\
    let p := stack ++ [uniqueid +:+ "CustomResourceProvider"] in
    token = Attr p "ServiceToken" /\
    ((lookup (constructs w) p <> None /\ w' = w) \/
     (lookup (constructs w) p = None /\
      w' = attach p (CustomResourceProviderC props) w)).
Proof.
  unfold CustomResourceProvider_getOrCreate. intros H.
  bind_inv_in H w0 st Hst.
  pose proof (Stack_of_ok _ _ _ _ Hst) as (-> & _).
  exists st. split; [exact Hst|].
  bind_inv_in H w1 found Hfound. apply tryFindChild_ok in Hfound.
  destruct Hfound as [-> [[-> Hsome]|[-> Hnone]]].
  - bind_inv_in H w2 p Hp. apply ret_ok in Hp. destruct Hp as [-> ->].
    apply ret_ok in H. destruct H as [-> ->]. simpl. auto.
  - bind_inv_in H w2 p Hp. apply Construct_new_ok in Hp.
    destruct Hp as (-> & _ & ->).
    apply ret_ok in H. destruct H as [-> ->]. simpl. auto.
Qed.

Lemma edgeStackId_not_providerId r : edgeStackId r <> providerId.
Proof. discriminate. Qed.

Lemma child_ne_grandchild (s t : path) (a b c : string) :
  b <> c -> s ++ [a; b] <> t ++ [c].
Proof.
  intros Hne Heq.
  change (s ++ [a; b]) with (s ++ [a] ++ [b]) in Heq.
  rewrite app_assoc in Heq. apply child_inj in Heq. tauto.
Qed.

Lemma createCrossRegionFunction_ok this id props w w' cfg :
  Stack_of (node this) w = (w, Ok (stack this)) ->
  createCrossRegionFunction this id props w = (w', Ok cfg) ->
  exists r,
    let s := [edgeStackId r] in
    env_region this = Lit r /\ inStagedApp w = true /\
    fc_functionStack cfg = s /\
    fc_edgeFunction cfg = s ++ [id] /\
    fc_currentVersion cfg = fc_edgeFunction cfg ++ ["CurrentVersion"] /\
    fc_edgeArn cfg = getAttString (node this ++ ["ArnReader"]) "FunctionArn" /\
    grows (crossRegionFootprint (node this) (stack this) s id)
      (fun a b => a = stack this /\ b = s) w w' /\
    In (stack this, s) (dependencies w') /\
    (exists reg sy, lookup (constructs w') s = Some (StackC true reg sy)) /\
    lookup (constructs w) (fc_edgeFunction cfg) = None /\
    lookup (constructs w') (fc_edgeFunction cfg ++ ["Parameter"]) =
      Some (StringParameterC (parameterNameOf id)
              (Version_edgeArn (fc_currentVersion cfg))) /\
    lookup (constructs w) (fc_edgeFunction cfg ++ ["Parameter"]) = None /\
    lookup (constructs w') (node this ++ ["ArnReader"]) =
      Some (CustomResourceC (readerProps (stack this) id (clock w))) /\
    lookup (constructs w) (node this ++ ["ArnReader"]) = None /\
    (stack this <> s ->
     lookup (constructs w) (stack this ++ [providerId]) = None ->
     lookup (constructs w') (stack this ++ [providerId]) =
       Some (CustomResourceProviderC (readerProviderProps (stack this) id))) /\
    exists rl,
      lookup (constructs w') (fc_edgeFunction cfg) =
        Some (FunctionC (with_role props rl)) /\
      (fp_role props = Some rl \/
       (fp_role props = None /\ rl = s ++ [id +:+ "ServiceRole"] /\
        lookup (constructs w) rl = None /\
        lookup (constructs w') rl = Some (RoleC defaultRoleProps))).
Proof.
  unfold createCrossRegionFunction. intros Henc H.
  bind_inv_in H w1 s Hstack. apply edgeStack_ok in Hstack.
  destruct Hstack as (Hstage & r & Hr & -> & Hs).
  bind_inv_in H w2 u Hdep. unfold Stack_addDependency in Hdep.
  injection Hdep as <- _.
  bind_inv_in H w3 fv Hadd. apply call_addEdgeFunction_ok in Hadd.
  destruct Hadd as [Hadd (reg & sy & Hst)]. destruct fv as [fn v].
  apply addEdgeFunction_ok in Hadd.
  destruct Hadd as (-> & -> & Gadd & Hfnone & Hpar & Hparnone & rl & Hfn & Hrole).
  bind_inv_in H w4 token Hprov. apply getOrCreate_ok in Hprov.
  destruct Hprov as (ps & Hps & Hprov). cbv zeta in Hprov.
  bind_inv_in H w5 now Hnow. apply get_ok in Hnow. destruct Hnow as [-> ->].
  bind_inv_in H w6 res Hres. unfold CustomResource_new in Hres.
  apply Construct_new_ok in Hres. destruct Hres as (-> & Hresnone & ->).
  apply ret_ok in H. destruct H as [-> ->].
  exists r. cbv zeta. cbn [fc_functionStack fc_edgeFunction fc_currentVersion fc_edgeArn fst snd].
  set (s := [edgeStackId r]) in *.
  set (D := fun a b : path => a = stack this /\ b = s).
  set (P13 := fun (p : path) (c : construct) =>
                (p = s /\ exists sy, c = StackC true (Lit EDGE_REGION) sy) \/
                edgeFunctionFootprint s id p c).
  assert (G1 : grows P13 D w w1).
  { destruct Hs as [[_ ->]|(Hn & sy' & ->)]; [apply grows_refl|].
    apply attach_grows; [exact Hn|]. left. eauto. }
  assert (G2 : grows P13 D w1 (depend (stack this) s w1)).
  { apply grows_depend; [apply grows_refl|]. split; reflexivity. }
  assert (G3 : grows P13 D (depend (stack this) s w1) w3).
  { eapply grows_weaken; [| |exact Gadd]; [intros p c Hp; right; exact Hp|].
    intros ? ? []. }
  assert (G13 : grows P13 D w w3).
  { exact (grows_trans (grows_trans G1 G2) G3). }
  assert (Hdeep : forall q c, P13 q c -> isStack c = true ->
                    length q <= length (stack this)).
  { intros q c [[-> _]|Hq] Hc.
    - pose proof (Stack_of_ok _ _ _ _ Henc) as (_ & (b0 & r0 & sy0 & Hown) & _).
      destruct (stack this) as [|x rest]; [|simpl; lia].
      unfold inStagedApp, node_root in Hstage. rewrite Hown in Hstage.
      discriminate.
    - destruct Hq as [[_ ->]|[[_ [fp ->]]|[[_ ->]|[_ (n & v & ->)]]]];
        discriminate. }
  rewrite (Stack_of_grows _ _ _ _ _ _ G13 Hdeep Henc) in Hps.
  injection Hps as <-. destruct Hprov as [-> Hprov].
  set (P := crossRegionFootprint (node this) (stack this) s id).
  assert (W13 : forall a b, grows P13 D a b -> grows P D a b).
  { intros a b. apply grows_weaken; [|auto].
    intros p c [Hp|Hp]; [left; exact Hp|right; left; exact Hp]. }
  assert (G4 : grows P D w3 w4).
  { destruct Hprov as [[_ ->]|[Hn ->]]; [apply grows_refl|].
    apply attach_grows; [exact Hn|]. right. right. left. eauto. }
  set (reader := CustomResourceC _) in *.
  assert (G5 : grows P D w4 (attach (node this ++ ["ArnReader"]) reader w4)).
  { apply attach_grows; [exact Hresnone|]. right. right. right. unfold reader. eauto. }
  assert (G35 : grows P D w3 (attach (node this ++ ["ArnReader"]) reader w4)).
  { exact (grows_trans G4 G5). }
  assert (Gall : grows P D w (attach (node this ++ ["ArnReader"]) reader w4)).
  { exact (grows_trans (W13 _ _ G13) G35). }
  split; [exact Hr|]. split; [exact Hstage|].
  repeat (split; [reflexivity|]).
  split; [exact Gall|].
  split.
  { eapply grows_dependencies;
      [exact (grows_trans (W13 _ _ G3) G35)|]. simpl. now left. }
  split.
  { exists reg, sy. eapply grows_lookup;
      [exact (grows_trans (W13 _ _ G3) G35)|exact Hst]. }
  split.
  { eapply grows_lookup_none; [exact (grows_trans G1 G2)|exact Hfnone]. }
  split.
  { eapply grows_lookup; [exact G35|exact Hpar]. }
  split.
  { eapply grows_lookup_none; [exact (grows_trans G1 G2)|exact Hparnone]. }
  split.
  { rewrite lookup_attach_eq. unfold reader, readerProps.
    rewrite <- (grows_clock (grows_trans (W13 _ _ G13) G4)).
    reflexivity. }
  split.
  { eapply grows_lookup_none;
      [exact (grows_trans (W13 _ _ G13) G4)|exact Hresnone]. }
  split.
  { intros Hne Hnone.
    assert (Hfree : lookup (constructs w3) (stack this ++ [providerId]) = None).
    { eapply grows_absent; [exact G13|exact Hnone|].
      intros c [[Heq _]|[[Heq _]|[[Heq _]|[[Heq _]|[Heq _]]]]].
      - change s with ([] ++ [edgeStackId r]) in Heq.
        symmetry in Heq. apply child_inj in Heq. destruct Heq as [_ Heq].
        revert Heq. apply edgeStackId_not_providerId.
      - apply child_inj in Heq. tauto.
      - apply child_inj in Heq. tauto.
      - symmetry in Heq. revert Heq. apply child_ne_grandchild. discriminate.
      - symmetry in Heq. revert Heq. apply child_ne_grandchild. discriminate. }
    destruct Hprov as [[Hsome _]|[_ ->]]; [contradiction|].
    rewrite lookup_attach_ne.
    - apply lookup_attach_eq.
    - intros Heq. apply child_inj in Heq. destruct Heq as [_ Heq]. discriminate. }
  exists rl. split.
  { eapply grows_lookup; [exact G35|exact Hfn]. }
  destruct Hrole as [Hrl|(Hrl & -> & Hn & Hrole)]; [left; exact Hrl|].
  right. repeat split; auto.
  - eapply grows_lookup_none; [exact (grows_trans G1 G2)|exact Hn].
  - eapply grows_lookup; [exact G35|exact Hrole].
Qed.

(** ** The constructor *)

Lemma EdgeFunction_new_ok scope id props w w' f :
  EdgeFunction_new scope id props w = (w', Ok f) ->
  exists w1 cfg,
    Resource_new scope id w = (w1, Ok (base f)) /\
    (if regionIsUsEast1 (env_region (base f))
     then createInRegionFunction (base f) id props
     else createCrossRegionFunction (base f) id props) w1 = (w', Ok cfg) /\
    Function_role (fc_edgeFunction cfg) w' = (w', Ok (grantPrincipal f)) /\
    edgeArn f = fc_edgeArn cfg /\
    functionArn f = fc_edgeArn cfg /\
    functionName f = Function_functionName (fc_edgeFunction cfg) /\
    isBoundToVpc f = false /\
    lambda f = fc_edgeFunction cfg /\
    permissionsNode f = fc_edgeFunction cfg /\
    role f = None /\
    version f = extractQualifierFromArn (fc_edgeArn cfg) /\
    functionStack f = fc_functionStack cfg /\
    currentVersion f = fc_currentVersion cfg.
Proof.
  unfold EdgeFunction_new. intros H.
  bind_inv_in H w1 this Hthis.
  bind_inv_in H w2 region Hregion.
  apply Stack_region_ok in Hregion. destruct Hregion as (-> & b & sy & Hs).
  destruct (Resource_new_stack_after _ _ _ _ _ Hthis) as (b' & sy' & Hs').
  rewrite Hs' in Hs. injection Hs as _ <- _.
  bind_inv_in H w3 cfg Hcfg.
  bind_inv_in H w4 lambdaRole Hrole.
  pose proof (Function_role_same _ _ _ _ Hrole) as ->.
  apply ret_ok in H. destruct H as [-> ->]. simpl.
  exists w1, cfg. repeat split; auto.
Qed.

Lemma regionIsUsEast1_true region :
  regionIsUsEast1 region = true <-> region = Lit "us-east-1".
Proof.
  unfold regionIsUsEast1. destruct region as [s| | | |]; simpl;
    try (split; intros H; discriminate).
  rewrite String.eqb_eq. split; [now intros ->|now intros [= ->]].
Qed.

Lemma unresolved_not_us_east_1 region :
  isUnresolved region = true -> regionIsUsEast1 region = false.
Proof. unfold regionIsUsEast1. now intros ->. Qed.

Lemma Stack_region_run s w b r sy :
  lookup (constructs w) s = Some (StackC b r sy) ->
  Stack_region s w = (w, Ok r).
Proof. unfold Stack_region. now intros ->. Qed.

Lemma Stage_isStage_run w : Stage_isStage node_root w = (w, Ok (inStagedApp w)).
Proof.
  unfold Stage_isStage, inStagedApp.
  now destruct (lookup (constructs w) node_root) as [[]|].
Qed.

Lemma edgeStack_throws this w :
  inStagedApp w = false \/ isUnresolved (env_region this) = true ->
  edgeStack this w =
    (w, Throw (if inStagedApp w then noRegionError else notRegisteredError)).
Proof.
  intros Hbad. unfold edgeStack, bind. rewrite Stage_isStage_run.
  destruct (inStagedApp w); simpl.
  - destruct Hbad as [Hbad|Hbad]; [discriminate|]. now rewrite Hbad.
  - reflexivity.
Qed.

(** ** Names under the support stack *)



Lemma regionIsUsEast1_other r : r <> "us-east-1" -> regionIsUsEast1 (Lit r) = false.
Proof.
  intros Hne. unfold regionIsUsEast1. simpl. now apply String.eqb_neq.
Qed.

(** * The properties of the specification *)

(** C2.  On the cross-region path the constructor throws a configuration
    error as soon as it asks for the support stack, when the root of the
    tree is neither an app nor a stage, and likewise when the caller's region
    is an unresolved token.  The tree then holds the facade's own construct,
    attached by the base constructor, and nothing else that is new: no
    support stack, function, parameter, custom resource or dependency. *)
Theorem cross_region_configuration_errors scope id props w w1 this :
  Resource_new scope id w = (w1, Ok this) ->
  (regionIsUsEast1 (env_region this) = false /\ inStagedApp w = false) \/
  isUnresolved (env_region this) = true ->
  EdgeFunction_new scope id props w =
    (attach (scope ++ [id]) EdgeFunctionC w,
     Throw (if inStagedApp w then noRegionError else notRegisteredError)).
Proof.
  intros Hthis Hbad.
  assert (Hcross : regionIsUsEast1 (env_region this) = false).
  { destruct Hbad as [[Hc _]|Hu]; [exact Hc|].
    now apply unresolved_not_us_east_1. }
  assert (Hbad' : inStagedApp w = false \/ isUnresolved (env_region this) = true)
    by tauto.
  destruct (Resource_new_stack_after _ _ _ _ _ Hthis) as (b & sy & Hs).
  pose proof (Resource_new_ok _ _ _ _ _ Hthis) as (Hnode & _ & Hw1 & _).
  unfold EdgeFunction_new, bind. rewrite Hthis.
  rewrite (Stack_region_run _ _ _ _ _ Hs), Hcross.
  unfold createCrossRegionFunction, bind.
  rewrite edgeStack_throws.
  - rewrite Hw1, Hnode, inStagedApp_attach. reflexivity.
  - rewrite Hw1, Hnode, inStagedApp_attach. exact Hbad'.
Qed.

Lemma cross_region_configuration_errors_witness :
  EdgeFunction_new [] "Fn1" props0 lone0 =
    (attach ["Fn1"] EdgeFunctionC lone0, Throw notRegisteredError) /\
  EdgeFunction_new ["Agnostic"] "Fn1" props0 app0 =
    (attach ["Agnostic"; "Fn1"] EdgeFunctionC app0, Throw noRegionError).
Proof.
  split.
  - eapply (cross_region_configuration_errors [] "Fn1" props0 lone0).
    + reflexivity.
    + left. split; reflexivity.
  - eapply (cross_region_configuration_errors ["Agnostic"] "Fn1" props0 app0).
    + reflexivity.
    + right. reflexivity.
Defined.

Lemma under_refl (p : path) : under p p.
Proof. exists []. now rewrite app_nil_r. Qed.

Lemma under_app (p q : path) : under p (p ++ q).
Proof. now exists q. Qed.

Lemma inRegionFootprint_shape this id p c :
  inRegionFootprint this id p c -> isStack c = false /\ under this p.
Proof.
  intros [[-> ->]|[[-> [fp ->]]|[-> ->]]]; (split; [reflexivity|apply under_app]).
Qed.

(** C3.  When the region of the caller's stack is the literal us-east-1,
    the constructor takes the in-region path: the function is created as the
    child Fn of the facade, the owning stack is the caller's own stack, the
    identifier is the edge ARN of the function's current version, no
    dependency is recorded, and whatever is new in the tree lies at or under
    the facade and is not a stack, so no support stack is created. *)
Theorem in_region_placement scope id props w w' f :
  EdgeFunction_new scope id props w = (w', Ok f) ->
  env_region (base f) = Lit "us-east-1" ->
  node (base f) = scope ++ [id] /\
  lambda f = node (base f) ++ ["Fn"] /\
  lookup (constructs w) (lambda f) = None /\
  (exists fp, lookup (constructs w') (lambda f) = Some (FunctionC fp)) /\
  functionStack f = stack (base f) /\
  under (stack (base f)) (node (base f)) /\
  (exists b sy,
     lookup (constructs w') (stack (base f)) =
       Some (StackC b (Lit "us-east-1") sy)) /\
  currentVersion f = lambda f ++ ["CurrentVersion"] /\
  edgeArn f = Version_edgeArn (currentVersion f) /\
  dependencies w' = dependencies w /\
  (forall p c,
     lookup (constructs w) p = None -> lookup (constructs w') p = Some c ->
     isStack c = false /\ under (node (base f)) p).
Proof.
  intros H Hregion.
  apply EdgeFunction_new_ok in H.
  destruct H as (w1 & cfg & Hthis & Hcfg & _ & Harn & _ & _ & _ & Hlam & _ & _ & _
                 & Hfs & Hcv).
  apply regionIsUsEast1_true in Hregion as Hpath. rewrite Hpath in Hcfg.
  destruct (Resource_new_stack_after _ _ _ _ _ Hthis) as (b & sy & Hs).
  apply Resource_new_ok in Hthis.
  destruct Hthis as (Hnode & Hnone & Hw1 & _ & _ & Hunder).
  apply createInRegionFunction_ok in Hcfg.
  destruct Hcfg as (Hfn & Hver & Hea & Hst & G & Hfnone & r & Hf & _).
  set (P := fun p c => (p = node (base f) /\ c = EdgeFunctionC) \/
                       inRegionFootprint (node (base f)) id p c).
  assert (G0 : grows P noEdge w w1).
  { rewrite Hw1. apply attach_grows; [exact Hnone|]. left. auto. }
  assert (Gall : grows P noEdge w w').
  { eapply grows_trans; [exact G0|].
    eapply grows_weaken; [| |exact G]; [intros p c Hp; right; exact Hp|auto]. }
  rewrite Hlam, Hfs, Hcv, Harn, Hea, Hver, Hfn, Hst.
  split; [exact Hnode|]. split; [reflexivity|].
  split. { eapply grows_lookup_none; [exact G0|]. now rewrite <- Hfn. }
  split. { rewrite <- Hfn. eauto. }
  split; [reflexivity|]. split; [exact Hunder|].
  split. { exists b, sy. rewrite <- Hregion. eapply grows_lookup; [exact G|exact Hs]. }
  split; [reflexivity|]. split; [reflexivity|].
  split; [exact (grows_noEdge Gall)|].
  intros p c Hp Hp'.
  destruct (grows_new Gall Hp Hp') as [[-> ->]|Hfoot].
  - split; [reflexivity|apply under_refl].
  - eapply inRegionFootprint_shape. exact Hfoot.
Qed.

Lemma in_region_placement_witness :
  EdgeFunction_new ["East"] "Fn1" props0 app0 = (worldEast, Ok facadeEast) /\
  lambda facadeEast = node (base facadeEast) ++ ["Fn"] /\
  functionStack facadeEast = stack (base facadeEast) /\
  edgeArn facadeEast = Version_edgeArn (currentVersion facadeEast) /\
  dependencies worldEast = dependencies app0.
Proof.
  assert (Hnew : EdgeFunction_new ["East"] "Fn1" props0 app0
                 = (worldEast, Ok facadeEast)) by (vm_compute; reflexivity).
  split; [exact Hnew|].
  destruct (in_region_placement _ _ _ _ _ _ Hnew eq_refl)
    as (_ & Hl & _ & _ & Hfs & _ & _ & _ & Harn & Hd & _).
  split; [exact Hl|]. split; [exact Hfs|]. split; [exact Harn|exact Hd].
Defined.

(** C5.  Reading [connections] or [latestVersion] of any facade, whichever
    way it was placed, throws with a message that names the reason, leaves
    the tree untouched, and never yields a value. *)
Theorem unsupported_accessors_throw (f : EdgeFunction) (w : world) :
  connections f w = (w, Throw "Lambda@Edge does not support connections") /\
  latestVersion f w =
    (w, Throw "$LATEST function version cannot be used for Lambda@Edge") /\
  (forall w' c, connections f w <> (w', Ok c)) /\
  (forall w' v, latestVersion f w <> (w', Ok v)).
Proof.
  unfold connections, latestVersion, throw.
  repeat split; intros; discriminate.
Qed.

(** C7.  Each of the five metric accessors calls the accessor of the same
    name on the underlying function, with the caller's options kept as they
    are but for the region, which is us-east-1 whatever the caller gave. *)
Theorem metrics_scoped_to_edge_region {Metric : Type} `{IFunction Metric}
    (f : EdgeFunction) (metricName : string) (props : option MetricOptions) :
  let o := withEdgeRegion props in
  metric f metricName props = fn_metric (lambda f) metricName (Some o) /\
  metricDuration f props = fn_metricDuration (lambda f) (Some o) /\
  metricErrors f props = fn_metricErrors (lambda f) (Some o) /\
  metricInvocations f props = fn_metricInvocations (lambda f) (Some o) /\
  metricThrottles f props = fn_metricThrottles (lambda f) (Some o) /\
  mo_region o = Some "us-east-1" /\
  (forall given, props = Some given ->
     mo_account o = mo_account given /\ mo_color o = mo_color given /\
     mo_dimensions o = mo_dimensions given /\ mo_label o = mo_label given /\
     mo_period o = mo_period given /\ mo_statistic o = mo_statistic given /\
     mo_unit o = mo_unit given).
Proof.
  cbv zeta. repeat (split; [reflexivity|]).
  split; [now destruct props|].
  intros given ->. simpl. repeat split.
Qed.



Lemma placed_function scope id props w w' f :
  EdgeFunction_new scope id props w = (w', Ok f) ->
  exists r,
    lookup (constructs w') (lambda f) = Some (FunctionC (with_role props r)) /\
    grantPrincipal f = Some r /\
    match fp_role props with
    | Some given => r = given
    | None =>
        r = (if regionIsUsEast1 (env_region (base f))
             then node (base f) else functionStack f) ++ [id +:+ "ServiceRole"] /\
        lookup (constructs w) r = None /\
        lookup (constructs w') r = Some (RoleC defaultRoleProps)
    end.
Proof.
  intros H. apply EdgeFunction_new_ok in H.
  destruct H as (w1 & cfg & Hthis & Hcfg & Hgp & _ & _ & _ & _ & Hlam & _ & _
                 & _ & Hfs & _).
  pose proof (Resource_new_stack_of _ _ _ _ _ Hthis) as Henc.
  apply Resource_new_ok in Hthis. destruct Hthis as (_ & Hnone & Hw1 & _).
  assert (G0 : grows anyConstruct anyEdge w w1).
  { rewrite Hw1. apply attach_grows; [exact Hnone|exact I]. }
  rewrite Hlam, Hfs.
  assert (Hend : exists r,
            lookup (constructs w') (fc_edgeFunction cfg) =
              Some (FunctionC (with_role props r)) /\
            (fp_role props = Some r \/
             (fp_role props = None /\
              r = (if regionIsUsEast1 (env_region (base f))
                   then node (base f) else fc_functionStack cfg)
                  ++ [id +:+ "ServiceRole"] /\
              lookup (constructs w1) r = None /\
              lookup (constructs w') r = Some (RoleC defaultRoleProps)))).
  { destruct (regionIsUsEast1 (env_region (base f))).
    - apply createInRegionFunction_ok in Hcfg.
      destruct Hcfg as (_ & _ & _ & _ & _ & _ & r & Hf & Hr). eauto.
    - apply createCrossRegionFunction_ok in Hcfg; [|exact Henc].
      destruct Hcfg as (rg & _ & _ & Hst & Hcfg).
      do 12 destruct Hcfg as (_ & Hcfg). destruct Hcfg as (r & Hf & Hr).
      rewrite Hst. eauto. }
  destruct Hend as (r & Hf & Hr). exists r. split; [exact Hf|].
  rewrite (Function_role_ok _ _ _ Hf) in Hgp. injection Hgp as Hgp.
  split; [now rewrite <- Hgp|].
  destruct Hr as [Hr|(Hr & -> & Hn & Hrole)]; rewrite Hr; [reflexivity|].
  split; [reflexivity|]. split; [|exact Hrole].
  eapply grows_lookup_none; [exact G0|exact Hn].
Qed.

(** C8.  Without a role in the props the function gets, on the in-region
    path and on the cross-region path alike, the role that
    [defaultLambdaRole] makes: named after the id, assumable by
    lambda.amazonaws.com and edgelambda.amazonaws.com, with the managed
    policy service-role/AWSLambdaBasicExecutionRole.  With a role in the
    props the function gets that very role on either path. *)
Theorem default_role_on_both_paths scope id props w w' f :
  EdgeFunction_new scope id props w = (w', Ok f) ->
  exists r fp,
    lookup (constructs w') (lambda f) = Some (FunctionC fp) /\
    fp_role fp = Some r /\
    grantPrincipal f = Some r /\
    match fp_role props with
    | Some given => r = given
    | None =>
        r = (if regionIsUsEast1 (env_region (base f))
             then node (base f) else functionStack f) ++ [id +:+ "ServiceRole"] /\
        lookup (constructs w) r = None /\
        lookup (constructs w') r =
          Some (RoleC
                  {| assumedBy :=
                       CompositePrincipal
                         [ServicePrincipal "lambda.amazonaws.com";
                          ServicePrincipal "edgelambda.amazonaws.com"];
                     managedPolicies :=
                       [fromAwsManagedPolicyName
                          "service-role/AWSLambdaBasicExecutionRole"] |})
    end.
Proof.
  intros H. apply placed_function in H. destruct H as (r & Hf & Hgp & Hr).
  exists r, (with_role props r). auto.
Qed.

Lemma default_role_on_both_paths_witness :
  EdgeFunction_new ["East"] "Fn1" props0 app0 = (worldEast, Ok facadeEast) /\
  EdgeFunction_new ["StackA"] "Fn1" props0 app0 = (worldA1, Ok facadeA1) /\
  EdgeFunction_new ["StackA"] "Fn1" propsVpc app0 = (worldVpc, Ok facadeVpc) /\
  (exists r fp,
     lookup (constructs worldEast) (lambda facadeEast) = Some (FunctionC fp) /\
     fp_role fp = Some r /\ r = ["East"; "Fn1"] ++ ["Fn1ServiceRole"] /\
     lookup (constructs worldEast) r = Some (RoleC defaultRoleProps)) /\
  (exists r fp,
     lookup (constructs worldA1) (lambda facadeA1) = Some (FunctionC fp) /\
     fp_role fp = Some r /\ r = ["edge-lambda-stack-eu-west-1"] ++ ["Fn1ServiceRole"] /\
     lookup (constructs worldA1) r = Some (RoleC defaultRoleProps)) /\
  (exists r fp,
     lookup (constructs worldVpc) (lambda facadeVpc) = Some (FunctionC fp) /\
     fp_role fp = Some r /\ r = ["StackA"; "MyRole"]).
Proof.
  assert (H1 : EdgeFunction_new ["East"] "Fn1" props0 app0
               = (worldEast, Ok facadeEast)) by (vm_compute; reflexivity).
  assert (H2 : EdgeFunction_new ["StackA"] "Fn1" props0 app0
               = (worldA1, Ok facadeA1)) by (vm_compute; reflexivity).
  assert (H3 : EdgeFunction_new ["StackA"] "Fn1" propsVpc app0
               = (worldVpc, Ok facadeVpc)) by (vm_compute; reflexivity).
  split; [exact H1|]. split; [exact H2|]. split; [exact H3|].
  split; [|split].
  - destruct (default_role_on_both_paths _ _ _ _ _ _ H1)
      as (r & fp & Hf & Hfp & _ & Hr & _ & Hrole).
    exists r, fp. auto.
  - destruct (default_role_on_both_paths _ _ _ _ _ _ H2)
      as (r & fp & Hf & Hfp & _ & Hr & _ & Hrole).
    exists r, fp. auto.
  - destruct (default_role_on_both_paths _ _ _ _ _ _ H3)
      as (r & fp & Hf & Hfp & _ & Hr).
    exists r, fp. auto.
Defined.

(** C10.  [isBoundToVpc] of a facade is false, also when the props carry
    a VPC and the underlying function is created with it. *)
Theorem never_bound_to_vpc scope id props w w' f :
  EdgeFunction_new scope id props w = (w', Ok f) ->
  isBoundToVpc f = false /\
  exists fp,
    lookup (constructs w') (lambda f) = Some (FunctionC fp) /\
    fp_vpc fp = fp_vpc props.
Proof.
  intros H. split.
  - apply EdgeFunction_new_ok in H. destruct H as (w1 & cfg & H). tauto.
  - apply placed_function in H. destruct H as (r & Hf & _).
    exists (with_role props r). auto.
Qed.

Lemma never_bound_to_vpc_witness :
  EdgeFunction_new ["StackA"] "Fn1" propsVpc app0 = (worldVpc, Ok facadeVpc) /\
  isBoundToVpc facadeVpc = false /\
  exists fp,
    lookup (constructs worldVpc) (lambda facadeVpc) = Some (FunctionC fp) /\
    fp_vpc fp = Some ["StackA"; "Vpc"].
Proof.
  assert (Hnew : EdgeFunction_new ["StackA"] "Fn1" propsVpc app0
                 = (worldVpc, Ok facadeVpc)) by (vm_compute; reflexivity).
  split; [exact Hnew|].
  destruct (never_bound_to_vpc _ _ _ _ _ _ Hnew) as (Hb & fp & Hf & Hv).
  split; [exact Hb|]. exists fp. split; [exact Hf|exact Hv].
Defined.

Lemma owning_stack scope id props w w' f :
  EdgeFunction_new scope id props w = (w', Ok f) ->
  functionStack f =
    (if regionIsUsEast1 (env_region (base f))
     then stack (base f)
     else [edgeStackId (toString (env_region (base f)))]) /\
  (regionIsUsEast1 (env_region (base f)) = false ->
   exists reg sy,
     lookup (constructs w') (functionStack f) = Some (StackC true reg sy)) /\
  exists b sy,
    lookup (constructs w') (stack (base f)) =
      Some (StackC b (env_region (base f)) sy).
Proof.
  intros H. apply EdgeFunction_new_ok in H.
  destruct H as (w1 & cfg & Hthis & Hcfg & _ & _ & _ & _ & _ & _ & _ & _ & _
                 & Hfs & _).
  destruct (Resource_new_stack_after _ _ _ _ _ Hthis) as (b & sy & Hs).
  pose proof (Resource_new_stack_of _ _ _ _ _ Hthis) as Henc.
  rewrite Hfs.
  destruct (regionIsUsEast1 (env_region (base f))).
  - apply createInRegionFunction_ok in Hcfg.
    destruct Hcfg as (_ & _ & _ & Hst & G & _).
    split; [exact Hst|]. split; [discriminate|].
    exists b, sy. eapply grows_lookup; [exact G|exact Hs].
  - apply createCrossRegionFunction_ok in Hcfg; [|exact Henc].
    destruct Hcfg as (r & Hr & _ & Hst & _ & _ & _ & G & _ & Hstack & _).
    rewrite Hr. split; [exact Hst|]. split.
    + intros _. rewrite Hst. exact Hstack.
    + exists b, sy. rewrite <- Hr. eapply grows_lookup; [exact G|exact Hs].
Qed.

(** C6.  [addAlias] attaches the alias, for any name and options, under
    the owning stack that the constructor stored: the caller's own stack
    after in-region placement, the support stack after cross-region
    placement.  The alias points at the stored current version.  When the
    owning stack is not the facade's own stack, the alias is not a child of
    the facade's own stack; the two differ whenever the facade's own stack
    is not itself a support stack. *)
Theorem alias_attached_to_owning_stack scope id props w w1 f
    aliasName options w2 w3 a :
  EdgeFunction_new scope id props w = (w1, Ok f) ->
  addAlias f aliasName options w2 = (w3, Ok a) ->
  a = functionStack f ++ ["Alias" +:+ aliasName] /\
  parentOf a = functionStack f /\
  lookup (constructs w2) a = None /\
  w3 = attach a
         (AliasC
            {| ap_aliasName := aliasName;
               ap_version := currentVersion f;
               ap_options :=
                 match options with Some o => o | None => noAliasOptions end |})
         w2 /\
  functionStack f =
    (if regionIsUsEast1 (env_region (base f))
     then stack (base f)
     else [edgeStackId (toString (env_region (base f)))]) /\
  (functionStack f <> stack (base f) -> parentOf a <> stack (base f)) /\
  (regionIsUsEast1 (env_region (base f)) = false ->
   (exists reg sy,
      lookup (constructs w1) (stack (base f)) = Some (StackC false reg sy)) ->
   functionStack f <> stack (base f)).
Proof.
  intros Hnew Halias. unfold addAlias, Alias_new in Halias.
  apply Construct_new_ok in Halias. destruct Halias as (-> & Hnone & ->).
  assert (Hparent : parentOf (functionStack f ++ ["Alias" +:+ aliasName])
                    = functionStack f).
  { unfold parentOf. apply removelast_last. }
  destruct (owning_stack _ _ _ _ _ _ Hnew) as (Hfs & Hsupport & _).
  rewrite Hparent.
  split; [reflexivity|]. split; [reflexivity|]. split; [exact Hnone|].
  split; [reflexivity|]. split; [exact Hfs|]. split; [auto|].
  intros Hcross (reg & sy & Hown) Heq.
  destruct (Hsupport Hcross) as (reg' & sy' & Hsup).
  rewrite Heq, Hown in Hsup. discriminate.
Qed.

Lemma alias_attached_to_owning_stack_witness :
  EdgeFunction_new ["StackA"] "Fn1" props0 app0 = (worldA1, Ok facadeA1) /\
  addAlias facadeA1 "live" None worldA1 =
    (attach ["edge-lambda-stack-eu-west-1"; "Aliaslive"]
       (AliasC
          {| ap_aliasName := "live";
             ap_version := ["edge-lambda-stack-eu-west-1"; "Fn1"; "CurrentVersion"];
             ap_options := noAliasOptions |})
       worldA1,
     Ok ["edge-lambda-stack-eu-west-1"; "Aliaslive"]) /\
  parentOf ["edge-lambda-stack-eu-west-1"; "Aliaslive"] = functionStack facadeA1 /\
  functionStack facadeA1 <> stack (base facadeA1).
Proof.
  assert (Hnew : EdgeFunction_new ["StackA"] "Fn1" props0 app0
                 = (worldA1, Ok facadeA1)) by (vm_compute; reflexivity).
  assert (Halias : addAlias facadeA1 "live" None worldA1 =
    (attach ["edge-lambda-stack-eu-west-1"; "Aliaslive"]
       (AliasC
          {| ap_aliasName := "live";
             ap_version := ["edge-lambda-stack-eu-west-1"; "Fn1"; "CurrentVersion"];
             ap_options := noAliasOptions |})
       worldA1,
     Ok ["edge-lambda-stack-eu-west-1"; "Aliaslive"]))
    by (vm_compute; reflexivity).
  split; [exact Hnew|]. split; [exact Halias|].
  destruct (alias_attached_to_owning_stack _ _ _ _ _ _ _ _ _ _ _ Hnew Halias)
    as (_ & Hp & _ & _ & _ & _ & Hne).
  split; [exact Hp|].
  apply Hne; [reflexivity|]. eexists. eexists. vm_compute. reflexivity.
Defined.

(** ** Two facades in one tree *)

Lemma EdgeFunction_new_grows scope id props w w' f :
  EdgeFunction_new scope id props w = (w', Ok f) ->
  grows anyConstruct anyEdge w w'.
Proof.
  intros H. apply EdgeFunction_new_ok in H.
  destruct H as (w1 & cfg & Hthis & Hcfg & _).
  pose proof (Resource_new_stack_of _ _ _ _ _ Hthis) as Henc.
  apply Resource_new_ok in Hthis. destruct Hthis as (_ & Hnone & Hw1 & _).
  subst w1. eapply grows_trans.
  - apply attach_grows; [exact Hnone|exact I].
  - destruct (regionIsUsEast1 (env_region (base f))).
    + apply createInRegionFunction_ok in Hcfg.
      destruct Hcfg as (_ & _ & _ & _ & G & _). exact (grows_any G).
    + apply createCrossRegionFunction_ok in Hcfg; [|exact Henc].
      destruct Hcfg as (r & _ & _ & _ & _ & _ & _ & G & _).
      exact (grows_any G).
Qed.

Lemma crossRegionFootprint_new_stack this stack s id p c :
  crossRegionFootprint this stack s id p c -> isStack c = true -> p = s.
Proof.
  intros [[-> _]|[Hp|[[_ [pp ->]]|[_ [cp ->]]]]]; try discriminate; [reflexivity|].
  destruct Hp as [[_ ->]|[[_ [fp ->]]|[[_ ->]|[_ (n & v & ->)]]]]; discriminate.
Qed.

(** C1 as the code has it.  The name under which the support stack is
    looked up is made of the caller's own region and of nothing else, so two
    facades placed cross-region from stacks of the same region, in one tree
    and with whatever was built in between, share one support stack: the
    second construction finds the stack of the first and creates no stack.
    There is at most one support stack per root and caller region. *)
Theorem one_support_stack_per_caller_region
    scope1 id1 props1 scope2 id2 props2 w0 w1 w2 w3 f1 f2 :
  EdgeFunction_new scope1 id1 props1 w0 = (w1, Ok f1) ->
  grows anyConstruct anyEdge w1 w2 ->
  EdgeFunction_new scope2 id2 props2 w2 = (w3, Ok f2) ->
  regionIsUsEast1 (env_region (base f1)) = false ->
  env_region (base f2) = env_region (base f1) ->
  functionStack f1 = [edgeStackId (toString (env_region (base f1)))] /\
  functionStack f2 = functionStack f1 /\
  (exists reg sy,
     lookup (constructs w1) (functionStack f1) = Some (StackC true reg sy) /\
     lookup (constructs w3) (functionStack f2) = Some (StackC true reg sy)) /\
  (forall p c,
     lookup (constructs w2) p = None -> lookup (constructs w3) p = Some c ->
     isStack c = false).
Proof.
  intros H1 G12 H2 Hcross Hsame.
  destruct (owning_stack _ _ _ _ _ _ H1) as (Hfs1 & Hsup1 & _).
  destruct (owning_stack _ _ _ _ _ _ H2) as (Hfs2 & _ & _).
  rewrite Hcross in Hfs1. rewrite Hsame, Hcross in Hfs2.
  destruct (Hsup1 Hcross) as (reg & sy & Hstack1).
  assert (Hstack2 : lookup (constructs w2) (functionStack f1)
                    = Some (StackC true reg sy)).
  { eapply grows_lookup; [exact G12|exact Hstack1]. }
  assert (Heq : functionStack f2 = functionStack f1) by now rewrite Hfs1, Hfs2.
  split; [exact Hfs1|]. split; [exact Heq|]. split.
  { exists reg, sy. split; [exact Hstack1|]. rewrite Heq.
    eapply grows_lookup; [exact (EdgeFunction_new_grows _ _ _ _ _ _ H2)|exact Hstack2]. }
  intros p c Hnone Hsome.
  apply EdgeFunction_new_ok in H2.
  destruct H2 as (w2' & cfg & Hthis & Hcfg & _ & _ & _ & _ & _ & _ & _ & _ & _
                  & Hfs & _).
  rewrite Hsame, Hcross in Hcfg.
  pose proof (Resource_new_stack_of _ _ _ _ _ Hthis) as Henc.
  apply Resource_new_ok in Hthis. destruct Hthis as (_ & Hn & Hw2' & _).
  apply createCrossRegionFunction_ok in Hcfg; [|exact Henc].
  destruct Hcfg as (r & _ & _ & Hst & _ & _ & _ & G & _).
  rewrite <- Hst, <- Hfs, Heq in G.
  destruct (path_eqb (node (base f2)) p) eqn:E.
  - apply path_eqb_eq in E. subst p.
    assert (Hfac : lookup (constructs w3) (node (base f2)) = Some EdgeFunctionC).
    { eapply grows_lookup; [exact G|]. rewrite Hw2'. apply lookup_attach_eq. }
    rewrite Hfac in Hsome. now injection Hsome as <-.
  - assert (Hnone' : lookup (constructs w2') p = None).
    { rewrite Hw2'. simpl. now rewrite E. }
    pose proof (grows_new G Hnone' Hsome) as Hfoot.
    destruct (isStack c) eqn:Ec; [|reflexivity].
    rewrite (crossRegionFootprint_new_stack _ _ _ _ _ _ Hfoot Ec) in Hnone.
    rewrite Hstack2 in Hnone. discriminate.
Qed.

Lemma one_support_stack_per_caller_region_witness :
  EdgeFunction_new ["StackA"] "Fn1" props0 app0 = (worldA1, Ok facadeA1) /\
  EdgeFunction_new ["StackA"] "Fn2" props0 worldA1 = (worldA2, Ok facadeA2) /\
  functionStack facadeA2 = functionStack facadeA1 /\
  functionStack facadeA1 = ["edge-lambda-stack-eu-west-1"].
Proof.
  assert (H1 : EdgeFunction_new ["StackA"] "Fn1" props0 app0
               = (worldA1, Ok facadeA1)) by (vm_compute; reflexivity).
  assert (H2 : EdgeFunction_new ["StackA"] "Fn2" props0 worldA1
               = (worldA2, Ok facadeA2)) by (vm_compute; reflexivity).
  split; [exact H1|]. split; [exact H2|].
  destruct (one_support_stack_per_caller_region _ _ _ _ _ _ _ _ _ _ _ _
              H1 (grows_refl _ _ worldA1) H2 eq_refl eq_refl)
    as (Hkey & Hsame & _).
  split; [exact Hsame|exact Hkey].
Defined.

(** C1 as the spec has it fails: two facades of one app, placed for the
    same target region us-east-1 from stacks of two regions, get two support
    stacks, each pinned to us-east-1. *)
Lemma one_support_stack_per_target_region_counterexample :
  EdgeFunction_new ["StackA"] "Fn1" props0 app0 = (worldA1, Ok facadeA1) /\
  EdgeFunction_new ["StackB"] "Fn2" props0 worldA1 = (worldB2, Ok facadeB2) /\
  functionStack facadeA1 = ["edge-lambda-stack-eu-west-1"] /\
  functionStack facadeB2 = ["edge-lambda-stack-ap-south-1"] /\
  functionStack facadeA1 <> functionStack facadeB2 /\
  lookup (constructs worldB2) (functionStack facadeA1) =
    Some (StackC true (Lit "us-east-1") OtherSynthesizer) /\
  lookup (constructs worldB2) (functionStack facadeB2) =
    Some (StackC true (Lit "us-east-1")
            (DefaultStackSynthesizer true "deploy-role" "exec-role")) /\
  ~ (forall scope1 id1 props1 scope2 id2 props2 w0 w1 w2 f1 f2,
       EdgeFunction_new scope1 id1 props1 w0 = (w1, Ok f1) ->
       EdgeFunction_new scope2 id2 props2 w1 = (w2, Ok f2) ->
       regionIsUsEast1 (env_region (base f1)) = false ->
       regionIsUsEast1 (env_region (base f2)) = false ->
       functionStack f1 = functionStack f2).
Proof.
  assert (H1 : EdgeFunction_new ["StackA"] "Fn1" props0 app0
               = (worldA1, Ok facadeA1)) by (vm_compute; reflexivity).
  assert (H2 : EdgeFunction_new ["StackB"] "Fn2" props0 worldA1
               = (worldB2, Ok facadeB2)) by (vm_compute; reflexivity).
  split; [exact H1|]. split; [exact H2|].
  split; [reflexivity|]. split; [reflexivity|]. split; [discriminate|].
  split; [vm_compute; reflexivity|]. split; [vm_compute; reflexivity|].
  intros Hall. specialize (Hall _ _ _ _ _ _ _ _ _ _ _ H1 H2 eq_refl eq_refl).
  discriminate.
Qed.

Lemma cross_region_reader scope id props w w' f :
  EdgeFunction_new scope id props w = (w', Ok f) ->
  regionIsUsEast1 (env_region (base f)) = false ->
  currentVersion f = lambda f ++ ["CurrentVersion"] /\
  lambda f = functionStack f ++ [id] /\
  lookup (constructs w') (lambda f ++ ["Parameter"]) =
    Some (StringParameterC (parameterNameOf id)
            (Version_edgeArn (currentVersion f))) /\
  edgeArn f = getAttString (node (base f) ++ ["ArnReader"]) "FunctionArn" /\
  (exists now,
     lookup (constructs w') (node (base f) ++ ["ArnReader"]) =
       Some (CustomResourceC (readerProps (stack (base f)) id now))) /\
  (stack (base f) <> functionStack f ->
   id <> providerId ->
   lookup (constructs w) (stack (base f) ++ [providerId]) = None ->
   lookup (constructs w') (stack (base f) ++ [providerId]) =
     Some (CustomResourceProviderC (readerProviderProps (stack (base f)) id))).
Proof.
  intros H Hcross. apply EdgeFunction_new_ok in H.
  destruct H as (w1 & cfg & Hthis & Hcfg & _ & Harn & _ & _ & _ & Hlam & _ & _
                 & _ & Hfs & Hcv).
  rewrite Hcross in Hcfg.
  pose proof (Resource_new_stack_of _ _ _ _ _ Hthis) as Henc.
  apply Resource_new_ok in Hthis. destruct Hthis as (Hnode & Hnone & Hw1 & _).
  apply createCrossRegionFunction_ok in Hcfg; [|exact Henc].
  destruct Hcfg as (r & Hr & _ & Hst & Hfn & Hver & Hea & G & _ & _ & _ & Hpar & _
                    & Hreader & _ & Hprov & _).
  rewrite Hcv, Hlam, Harn, Hfs, Hst.
  split; [exact Hver|]. split; [exact Hfn|]. split; [exact Hpar|].
  split; [exact Hea|]. split; [eauto|].
  intros Hne Hid Hfree. apply Hprov; [exact Hne|].
  rewrite Hw1, lookup_attach_ne; [exact Hfree|].
  rewrite Hnode. intros Heq. apply child_inj in Heq. tauto.
Qed.

Lemma sval_eqb_parameterArnOf stack n m :
  sval_eqb (parameterArnOf stack n) (parameterArnOf stack m) = String.eqb n m.
Proof.
  unfold parameterArnOf, Stack_formatArn, ArnComponents_eqb. simpl.
  now rewrite path_eqb_refl.
Qed.

Lemma mayRead_readerProviderProps w provider stack id n :
  lookup (constructs w) provider =
    Some (CustomResourceProviderC (readerProviderProps stack id)) ->
  mayRead w (Attr provider "ServiceToken") (parameterArnOf stack n) =
    String.eqb (parameterNameOf id) n.
Proof.
  intros H. unfold mayRead. rewrite H.
  unfold readerProviderProps, allowsGetParameter.
  cbn [policyStatements existsb ps_Effect ps_Resource ps_Action].
  rewrite sval_eqb_parameterArnOf.
  destruct (String.eqb (parameterNameOf id) n); reflexivity.
Qed.

(** Two facades placed cross-region from one ordinary stack share the
    stack's one provider, and the provider keeps the policy of the first
    facade: it may read the first parameter, and not the second. *)
Lemma shared_provider_keeps_first_policy
    scope1 id1 props1 scope2 id2 props2 w0 w1 w2 w3 f1 f2 :
  EdgeFunction_new scope1 id1 props1 w0 = (w1, Ok f1) ->
  grows anyConstruct anyEdge w1 w2 ->
  EdgeFunction_new scope2 id2 props2 w2 = (w3, Ok f2) ->
  regionIsUsEast1 (env_region (base f1)) = false ->
  stack (base f2) = stack (base f1) ->
  (exists reg sy,
     lookup (constructs w0) (stack (base f1)) = Some (StackC false reg sy)) ->
  lookup (constructs w0) (stack (base f1) ++ [providerId]) = None ->
  id1 <> providerId ->
  id1 <> id2 ->
  let token := Attr (stack (base f1) ++ [providerId]) "ServiceToken" in
  (exists now1 now2,
     lookup (constructs w3) (node (base f1) ++ ["ArnReader"]) =
       Some (CustomResourceC
               {| cr_resourceType := readerResourceType;
                  cr_serviceToken := token;
                  cr_properties :=
                    {| Region := EDGE_REGION;
                       ParameterName := "EdgeFunctionArn" +:+ id1;
                       RefreshEachDeploy := now1 |} |}) /\
     lookup (constructs w3) (node (base f2) ++ ["ArnReader"]) =
       Some (CustomResourceC
               {| cr_resourceType := readerResourceType;
                  cr_serviceToken := token;
                  cr_properties :=
                    {| Region := EDGE_REGION;
                       ParameterName := "EdgeFunctionArn" +:+ id2;
                       RefreshEachDeploy := now2 |} |})) /\
  lookup (constructs w3) (stack (base f1) ++ [providerId]) =
    Some (CustomResourceProviderC (readerProviderProps (stack (base f1)) id1)) /\
  mayRead w3 token
    (parameterArnOf (stack (base f1)) ("EdgeFunctionArn" +:+ id1)) = true /\
  mayRead w3 token
    (parameterArnOf (stack (base f2)) ("EdgeFunctionArn" +:+ id2)) = false.
Proof.
  intros H1 G12 H2 Hc1 Hsame (reg & sy & Hown) Hfree Hid1 Hid. cbv zeta.
  pose proof (EdgeFunction_new_grows _ _ _ _ _ _ H1) as G01.
  pose proof (EdgeFunction_new_grows _ _ _ _ _ _ H2) as G23.
  pose proof (grows_trans G12 G23) as G13.
  destruct (owning_stack _ _ _ _ _ _ H1) as (_ & Hsup1 & b1 & sy1 & Hst1).
  destruct (owning_stack _ _ _ _ _ _ H2) as (_ & _ & b2 & sy2 & Hst2).
  assert (Hregion : env_region (base f2) = env_region (base f1)).
  { rewrite Hsame, (grows_lookup G13 Hst1) in Hst2. now injection Hst2. }
  assert (Hc2 : regionIsUsEast1 (env_region (base f2)) = false)
    by now rewrite Hregion.
  assert (Hne : stack (base f1) <> functionStack f1).
  { intros Heq. destruct (Hsup1 Hc1) as (reg' & sy' & Hsup).
    rewrite <- Heq, (grows_lookup G01 Hown) in Hsup. discriminate. }
  destruct (cross_region_reader _ _ _ _ _ _ H1 Hc1)
    as (_ & _ & _ & _ & (now1 & Hreader1) & Hprov1).
  destruct (cross_region_reader _ _ _ _ _ _ H2 Hc2)
    as (_ & _ & _ & _ & (now2 & Hreader2) & _).
  specialize (Hprov1 Hne Hid1 Hfree).
  apply (grows_lookup G13) in Hreader1, Hprov1.
  rewrite Hsame in Hreader2 |- *.
  split; [exists now1, now2; split; [exact Hreader1|exact Hreader2]|].
  split; [exact Hprov1|].
  rewrite !(mayRead_readerProviderProps _ _ _ _ _ Hprov1).
  split; [apply String.eqb_refl|].
  apply String.eqb_neq. intros Heq. apply Hid.
  exact (parameterNameOf_inj _ _ Heq).
Qed.

(** C4.  The claim fails for the second of two facades placed cross-region
    from one stack.  With Fn1 and then Fn2 placed from the stack StackA of
    eu-west-1: the parameter names EdgeFunctionArnFn1 and EdgeFunctionArnFn2
    differ, each function publishes the edge ARN of its own current version
    under its own name, and each facade's identifier is the FunctionArn
    attribute of its own reader, which asks for the facade's own parameter
    name.  But both readers call the one provider of StackA, created by the
    first construction, whose only policy statement allows ssm:GetParameter
    on the ARN (service ssm, region us-east-1, resource parameter) of
    EdgeFunctionArnFn1: the statement that the second construction passes
    for EdgeFunctionArnFn2 is dropped, and the reader of Fn2 has no read
    access to the parameter it asks for. *)
Theorem second_reader_lacks_read_access :
  EdgeFunction_new ["StackA"] "Fn1" props0 app0 = (worldA1, Ok facadeA1) /\
  EdgeFunction_new ["StackA"] "Fn2" props0 worldA1 = (worldA2, Ok facadeA2) /\
  lookup (constructs worldA2) ["edge-lambda-stack-eu-west-1"; "Fn1"; "Parameter"] =
    Some (StringParameterC "EdgeFunctionArnFn1"
            (Attr ["edge-lambda-stack-eu-west-1"; "Fn1"; "CurrentVersion"]
               "edgeArn")) /\
  lookup (constructs worldA2) ["edge-lambda-stack-eu-west-1"; "Fn2"; "Parameter"] =
    Some (StringParameterC "EdgeFunctionArnFn2"
            (Attr ["edge-lambda-stack-eu-west-1"; "Fn2"; "CurrentVersion"]
               "edgeArn")) /\
  edgeArn facadeA1 = Attr ["StackA"; "Fn1"; "ArnReader"] "FunctionArn" /\
  edgeArn facadeA2 = Attr ["StackA"; "Fn2"; "ArnReader"] "FunctionArn" /\
  lookup (constructs worldA2) ["StackA"; "Fn1"; "ArnReader"] =
    Some (CustomResourceC
            {| cr_resourceType := "Custom::CrossRegionStringParameterReader";
               cr_serviceToken :=
                 Attr ["StackA";
                       "Custom::CrossRegionStringParameterReaderCustomResourceProvider"]
                   "ServiceToken";
               cr_properties :=
                 {| Region := "us-east-1";
                    ParameterName := "EdgeFunctionArnFn1";
                    RefreshEachDeploy := 1604275200000%N |} |}) /\
  lookup (constructs worldA2) ["StackA"; "Fn2"; "ArnReader"] =
    Some (CustomResourceC
            {| cr_resourceType := "Custom::CrossRegionStringParameterReader";
               cr_serviceToken :=
                 Attr ["StackA";
                       "Custom::CrossRegionStringParameterReaderCustomResourceProvider"]
                   "ServiceToken";
               cr_properties :=
                 {| Region := "us-east-1";
                    ParameterName := "EdgeFunctionArnFn2";
                    RefreshEachDeploy := 1604275200000%N |} |}) /\
  lookup (constructs worldA2)
    ["StackA"; "Custom::CrossRegionStringParameterReaderCustomResourceProvider"] =
    Some (CustomResourceProviderC
            {| codeDirectory := "edge-function";
               providerRuntime := "nodejs12";
               policyStatements :=
                 [{| ps_Effect := "Allow";
                     ps_Resource :=
                       FormatArn ["StackA"]
                         {| arn_service := "ssm";
                            arn_region := "us-east-1";
                            arn_resource := "parameter";
                            arn_resourceName := "EdgeFunctionArnFn1" |};
                     ps_Action := ["ssm:GetParameter"] |}] |}) /\
  mayRead worldA2
    (Attr ["StackA"; "Custom::CrossRegionStringParameterReaderCustomResourceProvider"]
       "ServiceToken")
    (FormatArn ["StackA"]
       {| arn_service := "ssm";
          arn_region := "us-east-1";
          arn_resource := "parameter";
          arn_resourceName := "EdgeFunctionArnFn1" |}) = true /\
  mayRead worldA2
    (Attr ["StackA"; "Custom::CrossRegionStringParameterReaderCustomResourceProvider"]
       "ServiceToken")
    (FormatArn ["StackA"]
       {| arn_service := "ssm";
          arn_region := "us-east-1";
          arn_resource := "parameter";
          arn_resourceName := "EdgeFunctionArnFn2" |}) = false.
Proof. repeat split; vm_compute; reflexivity. Qed.

(** Different ids are not enough for the second construction to succeed:
    the default role of the facade A and the function of the facade
    AServiceRole ask for the same name under the support stack. *)
Example role_name_meets_function_name :
  snd (EdgeFunction_new ["StackA"] "AServiceRole" props0
         (fst (EdgeFunction_new ["StackA"] "A" props0 app0)))
  = Throw "There is already a Construct with name 'AServiceRole'".
Proof. vm_compute. reflexivity. Qed.

(** A caller's region in the options does not survive. *)
Example metricErrors_overrides_region :
  metricErrors facadeA1 (Some optionsInParis) =
    (["edge-lambda-stack-eu-west-1"; "Fn1"], "Errors",
     Some {| mo_account := None;
             mo_color := None;
             mo_dimensions := [];
             mo_label := Some "errors";
             mo_period := Some 300%N;
             mo_region := Some "us-east-1";
             mo_statistic := Some "sum";
             mo_unit := None |}).
Proof. reflexivity. Qed.

Example metricThrottles_without_options :
  metricThrottles facadeEast None =
    (["East"; "Fn1"; "Fn"], "Throttles", Some (withEdgeRegion None)).
Proof. reflexivity. Qed.

(** * Further properties of edge-function.ts *)

(** ** Whatever happens, the tree only grows *)

Section Growing.
Variable P : path -> construct -> Prop.
Variable D : path -> path -> Prop.

Lemma growing_ret {A} (a : A) : growing P D (ret a).
Proof. intros w w' r H. injection H as <- _. apply grows_refl. Qed.

Lemma growing_throw {A} (e : string) : growing P D (@throw A e).
Proof. intros w w' r H. injection H as <- _. apply grows_refl. Qed.

Lemma growing_get {A} (f : world -> A) : growing P D (get f).
Proof. intros w w' r H. injection H as <- _. apply grows_refl. Qed.

Lemma growing_bind {A B} (m : M A) (k : A -> M B) :
  growing P D m -> (forall a, growing P D (k a)) -> growing P D (bind m k).
Proof.
  intros Hm Hk w w' r. unfold bind.
  destruct (m w) as [w1 [a|e]] eqn:E; intros H.
  - eapply grows_trans; [exact (Hm _ _ _ E)|exact (Hk _ _ _ _ H)].
  - injection H as <- _. exact (Hm _ _ _ E).
Qed.

Lemma growing_Construct_new scope id c :
  P (scope ++ [id]) c -> growing P D (Construct_new scope id c).
Proof.
  intros HP w w' r. unfold Construct_new.
  destruct (lookup (constructs w) (scope ++ [id])) eqn:E; intros H;
    injection H as <- _; [apply grows_refl|].
  apply attach_grows; [exact E|exact HP].
Qed.

Lemma growing_tryFindChild scope id : growing P D (tryFindChild scope id).
Proof.
  intros w w' r. unfold tryFindChild.
  destruct (lookup (constructs w) (scope ++ [id])); intros H;
    injection H as <- _; apply grows_refl.
Qed.

Lemma growing_Stack_of p : growing P D (Stack_of p).
Proof.
  intros w w' r. unfold Stack_of.
  destruct (enclosingStack (constructs w) (rev p)); intros H;
    injection H as <- _; apply grows_refl.
Qed.

Lemma growing_Stack_region s : growing P D (Stack_region s).
Proof.
  intros w w' r. unfold Stack_region.
  destruct (lookup (constructs w) s) as [[]|]; intros H;
    injection H as <- _; apply grows_refl.
Qed.

Lemma growing_Stack_synthesizer s : growing P D (Stack_synthesizer s).
Proof.
  intros w w' r. unfold Stack_synthesizer.
  destruct (lookup (constructs w) s) as [[]|]; intros H;
    injection H as <- _; apply grows_refl.
Qed.

Lemma growing_Stage_isStage p : growing P D (Stage_isStage p).
Proof.
  intros w w' r. unfold Stage_isStage.
  destruct (lookup (constructs w) p) as [[]|]; intros H;
    injection H as <- _; apply grows_refl.
Qed.

Lemma growing_Function_role fn : growing P D (Function_role fn).
Proof.
  intros w w' r. unfold Function_role.
  destruct (lookup (constructs w) fn) as [[]|]; intros H;
    injection H as <- _; apply grows_refl.
Qed.

Lemma growing_Stack_addDependency s t :
  D s t -> growing P D (Stack_addDependency s t).
Proof.
  intros HD w w' r H. injection H as <- _.
  apply grows_depend; [apply grows_refl|exact HD].
Qed.

Lemma growing_call (s : path) (m : M (path * path)) (e : string) :
  growing P D m ->
  growing P D
    (fun w =>
       match lookup (constructs w) s with
       | Some (StackC true _ _) => m w
       | _ => (w, Throw e)
       end).
Proof.
  intros Hm w w' r.
  destruct (lookup (constructs w) s) as [[| |[] reg sy| | | | | | | | |]|];
    intros H; try (injection H as <- _; apply grows_refl).
  exact (Hm _ _ _ H).
Qed.

End Growing.

(** Takes a computation apart down to the calls above; [side] settles what
    is asked of an attached construct or a recorded dependency. *)
Ltac growing_steps side :=
  repeat first
    [ progress cbv zeta
    | apply growing_ret
    | apply growing_throw
    | apply growing_get
    | apply growing_tryFindChild
    | apply growing_Stack_of
    | apply growing_Stack_region
    | apply growing_Stack_synthesizer
    | apply growing_Stage_isStage
    | apply growing_Function_role
    | apply growing_Construct_new; side
    | apply growing_Stack_addDependency; side
    | apply growing_call
    | match goal with
      | |- growing _ _ (match ?x with _ => _ end) => destruct x
      | |- growing _ _ (if ?x then _ else _) => destruct x
      end
    | apply growing_bind; [|intro] ].

Ltac unfold_construction :=
  unfold EdgeFunction_new, Resource_new, createInRegionFunction,
    createCrossRegionFunction, call_addEdgeFunction, addEdgeFunction,
    defaultLambdaRole, Role_new, Function_new, StringParameter_new,
    Function_currentVersion, edgeStack, getCrossRegionSupportSynthesizer,
    CrossRegionLambdaStack_new, CustomResourceProvider_getOrCreate,
    CustomResource_new, Date_now.

Lemma growing_EdgeFunction_new scope id props :
  growing anyConstruct anyEdge (EdgeFunction_new scope id props).
Proof. unfold_construction. growing_steps ltac:(exact I). Qed.

(** X1.  Whether the constructor returns a facade or throws, every
    construct that was in the tree is still there and is the same construct,
    every recorded dependency is still recorded, and the clock is as it was:
    construction never removes or replaces anything. *)
Theorem construction_never_removes scope id props w w' r :
  EdgeFunction_new scope id props w = (w', r) ->
  (forall p c,
     lookup (constructs w) p = Some c -> lookup (constructs w') p = Some c) /\
  (forall e, In e (dependencies w) -> In e (dependencies w')) /\
  clock w' = clock w.
Proof.
  intros H. apply growing_EdgeFunction_new in H.
  split; [|split].
  - intros p c. apply (grows_lookup H).
  - intros e He. exact (grows_dependencies H He).
  - apply (grows_clock H).
Qed.

Lemma construction_never_removes_witness :
  EdgeFunction_new ["Agnostic"] "Fn1" props0 app0 =
    (attach ["Agnostic"; "Fn1"] EdgeFunctionC app0, Throw noRegionError) /\
  lookup (constructs (attach ["Agnostic"; "Fn1"] EdgeFunctionC app0)) ["StackA"] =
    Some (StackC false (Lit "eu-west-1") OtherSynthesizer).
Proof.
  assert (Hrun : EdgeFunction_new ["Agnostic"] "Fn1" props0 app0 =
            (attach ["Agnostic"; "Fn1"] EdgeFunctionC app0, Throw noRegionError))
    by (vm_compute; reflexivity).
  split; [exact Hrun|].
  destruct (construction_never_removes _ _ _ _ _ _ Hrun) as (Hkeep & _).
  apply Hkeep. vm_compute. reflexivity.
Defined.

Lemma cross_region_shape scope id props w w' f :
  EdgeFunction_new scope id props w = (w', Ok f) ->
  regionIsUsEast1 (env_region (base f)) = false ->
  exists r,
    env_region (base f) = Lit r /\
    functionStack f = [edgeStackId r] /\
    lambda f = [edgeStackId r; id] /\
    inStagedApp w = true /\
    lookup (constructs w) [edgeStackId r; id] = None /\
    (exists reg sy,
       lookup (constructs w') [edgeStackId r] = Some (StackC true reg sy)) /\
    (exists fp, lookup (constructs w') [edgeStackId r; id] = Some (FunctionC fp)).
Proof.
  intros H Hc. pose proof (placed_function _ _ _ _ _ _ H) as (rl & Hf & _).
  apply EdgeFunction_new_ok in H.
  destruct H as (wx & cfg & Hthis & Hcfg & _ & _ & _ & _ & _ & Hlam & _ & _ & _
                 & Hfs & _).
  pose proof (Resource_new_stack_of _ _ _ _ _ Hthis) as Henc.
  rewrite Hc in Hcfg. apply Resource_new_ok in Hthis.
  destruct Hthis as (Hnode & Hnone & Hwx & _).
  apply createCrossRegionFunction_ok in Hcfg; [|exact Henc].
  destruct Hcfg as (r & Hr & Hstage & Hst & Hfn & _ & _ & _ & _ & Hstack & Hfree & _).
  exists r. rewrite Hlam, Hfn in Hf. rewrite Hfn in Hfree. rewrite Hfs, Hlam, Hfn.
  split; [exact Hr|]. split; [exact Hst|]. split; [reflexivity|].
  split. { rewrite Hwx, Hnode, inStagedApp_attach in Hstage. exact Hstage. }
  split. { eapply grows_lookup_none; [|exact Hfree]. rewrite Hwx.
           apply (attach_grows anyConstruct anyEdge); [exact Hnone|exact I]. }
  split; [exact Hstack|]. eauto.
Qed.

(** X2.  Two facades placed cross-region from stacks of different regions
    never share a support stack, nor an underlying function: the name of the
    support stack tells the regions apart. *)
Theorem different_regions_different_support_stacks
    scope1 id1 props1 scope2 id2 props2 w0 w1 w2 w3 f1 f2 :
  EdgeFunction_new scope1 id1 props1 w0 = (w1, Ok f1) ->
  EdgeFunction_new scope2 id2 props2 w2 = (w3, Ok f2) ->
  regionIsUsEast1 (env_region (base f1)) = false ->
  regionIsUsEast1 (env_region (base f2)) = false ->
  env_region (base f1) <> env_region (base f2) ->
  functionStack f1 <> functionStack f2 /\ lambda f1 <> lambda f2.
Proof.
  intros H1 H2 Hc1 Hc2 Hne.
  destruct (cross_region_shape _ _ _ _ _ _ H1 Hc1) as (r1 & Hr1 & -> & -> & _).
  destruct (cross_region_shape _ _ _ _ _ _ H2 Hc2) as (r2 & Hr2 & -> & -> & _).
  assert (Hkey : edgeStackId r1 <> edgeStackId r2).
  { intros Heq. apply edgeStackId_inj in Heq. apply Hne. congruence. }
  split; intros Heq; apply Hkey; exact (f_equal (hd EmptyString) Heq).
Qed.

Lemma different_regions_different_support_stacks_witness :
  EdgeFunction_new ["StackA"] "Fn1" props0 app0 = (worldA1, Ok facadeA1) /\
  EdgeFunction_new ["StackB"] "Fn2" props0 worldA1 = (worldB2, Ok facadeB2) /\
  functionStack facadeA1 <> functionStack facadeB2.
Proof.
  assert (H1 : EdgeFunction_new ["StackA"] "Fn1" props0 app0
               = (worldA1, Ok facadeA1)) by (vm_compute; reflexivity).
  assert (H2 : EdgeFunction_new ["StackB"] "Fn2" props0 worldA1
               = (worldB2, Ok facadeB2)) by (vm_compute; reflexivity).
  assert (Hne : env_region (base facadeA1) <> env_region (base facadeB2))
    by discriminate.
  split; [exact H1|]. split; [exact H2|].
  exact (proj1 (different_regions_different_support_stacks _ _ _ _ _ _ _ _ _ _ _ _
                  H1 H2 eq_refl eq_refl Hne)).
Defined.

Lemma grows_new_dependency P D w w' e :
  grows P D w w' ->
  In e (dependencies w') -> In e (dependencies w) \/ D (fst e) (snd e).
Proof.
  intros H He. induction H; simpl in *; auto.
  destruct He as [<-|He]; auto.
Qed.

(** X3.  A cross-region construction records the dependency of the
    caller's stack on the support stack, and records no other dependency. *)
Theorem cross_region_depends_on_support_stack scope id props w w' f :
  EdgeFunction_new scope id props w = (w', Ok f) ->
  regionIsUsEast1 (env_region (base f)) = false ->
  In (stack (base f), functionStack f) (dependencies w') /\
  (forall e,
     In e (dependencies w') ->
     In e (dependencies w) \/ e = (stack (base f), functionStack f)).
Proof.
  intros H Hc. apply EdgeFunction_new_ok in H.
  destruct H as (w1 & cfg & Hthis & Hcfg & _ & _ & _ & _ & _ & _ & _ & _ & _
                 & Hfs & _).
  pose proof (Resource_new_stack_of _ _ _ _ _ Hthis) as Henc.
  rewrite Hc in Hcfg. apply Resource_new_ok in Hthis.
  destruct Hthis as (_ & _ & Hw1 & _).
  apply createCrossRegionFunction_ok in Hcfg; [|exact Henc].
  destruct Hcfg as (r & _ & _ & Hst & _ & _ & _ & G & Hin & _).
  rewrite Hfs, Hst. split; [exact Hin|].
  intros [a b] He.
  destruct (grows_new_dependency _ _ _ _ _ G He) as [Hold|[Ha Hb]].
  - left. rewrite Hw1 in Hold. exact Hold.
  - right. simpl in Ha, Hb. now subst.
Qed.

Lemma cross_region_depends_on_support_stack_witness :
  EdgeFunction_new ["StackA"] "Fn1" props0 app0 = (worldA1, Ok facadeA1) /\
  In (["StackA"], ["edge-lambda-stack-eu-west-1"]) (dependencies worldA1).
Proof.
  assert (H1 : EdgeFunction_new ["StackA"] "Fn1" props0 app0
               = (worldA1, Ok facadeA1)) by (vm_compute; reflexivity).
  split; [exact H1|].
  exact (proj1 (cross_region_depends_on_support_stack _ _ _ _ _ _ H1 eq_refl)).
Defined.

(** X4.  The public [role] of a facade is never set, with or without a
    role in the props, although the underlying function always has a role,
    which the facade exposes as [grantPrincipal]; [permissionsNode] and
    [functionName] are those of the underlying function. *)
Theorem facade_role_is_never_set scope id props w w' f :
  EdgeFunction_new scope id props w = (w', Ok f) ->
  role f = None /\
  (exists r fp,
     grantPrincipal f = Some r /\
     lookup (constructs w') (lambda f) = Some (FunctionC fp) /\
     fp_role fp = Some r) /\
  permissionsNode f = lambda f /\
  functionName f = Function_functionName (lambda f).
Proof.
  intros H. pose proof (placed_function _ _ _ _ _ _ H) as (r & Hf & Hgp & _).
  apply EdgeFunction_new_ok in H.
  destruct H as (w1 & cfg & _ & _ & _ & _ & _ & Hname & _ & Hlam & Hperm & Hrole & _).
  split; [exact Hrole|]. split.
  { exists r, (with_role props r). auto. }
  rewrite Hlam. auto.
Qed.

Lemma facade_role_is_never_set_witness :
  EdgeFunction_new ["StackA"] "Fn1" propsVpc app0 = (worldVpc, Ok facadeVpc) /\
  fp_role propsVpc = Some ["StackA"; "MyRole"] /\
  role facadeVpc = None.
Proof.
  assert (Hnew : EdgeFunction_new ["StackA"] "Fn1" propsVpc app0
                 = (worldVpc, Ok facadeVpc)) by (vm_compute; reflexivity).
  split; [exact Hnew|]. split; [reflexivity|].
  exact (proj1 (facade_role_is_never_set _ _ _ _ _ _ Hnew)).
Defined.

(** X5.  Alias names are taken per owning stack, not per facade: once
    [addAlias] has attached an alias of some name, [addAlias] with the same
    name throws for every facade with the same owning stack, the same facade
    included, and leaves the tree as it is. *)
Theorem alias_name_taken_in_owning_stack f1 f2 aliasName o1 o2 w w1 w2 a :
  functionStack f2 = functionStack f1 ->
  addAlias f1 aliasName o1 w = (w1, Ok a) ->
  grows anyConstruct anyEdge w1 w2 ->
  addAlias f2 aliasName o2 w2 =
    (w2, Throw (duplicateName ("Alias" +:+ aliasName))).
Proof.
  intros Hfs H1 G. unfold addAlias, Alias_new in H1.
  apply Construct_new_ok in H1. destruct H1 as (-> & _ & ->).
  unfold addAlias, Alias_new, Construct_new. rewrite Hfs.
  erewrite (grows_lookup G); [reflexivity|]. apply lookup_attach_eq.
Qed.

Lemma alias_name_taken_in_owning_stack_witness :
  exists w1,
    addAlias facadeA1 "live" None worldA2 =
      (w1, Ok ["edge-lambda-stack-eu-west-1"; "Aliaslive"]) /\
    addAlias facadeA2 "live" None w1 =
      (w1, Throw "There is already a Construct with name 'Aliaslive'").
Proof.
  eexists. split; [reflexivity|].
  eapply (alias_name_taken_in_owning_stack facadeA1 facadeA2 "live" None None
            worldA2).
  - reflexivity.
  - reflexivity.
  - apply grows_refl.
Defined.

(** X6.  [edgeStack] does not check what it finds.  When a construct that
    is not a support stack already has the name made of the caller's region
    under the root, [edgeStack] hands it back as the support stack and
    leaves the tree as it is; and the constructor never returns a facade
    then, whatever the id and the props. *)
Theorem support_stack_name_held_by_another_construct
    scope id props w w1 this r c :
  Resource_new scope id w = (w1, Ok this) ->
  env_region this = Lit r ->
  r <> "us-east-1" ->
  inStagedApp w = true ->
  lookup (constructs w) [edgeStackId r] = Some c ->
  (forall reg sy, c <> StackC true reg sy) ->
  edgeStack this w1 = (w1, Ok [edgeStackId r]) /\
  forall w' f, EdgeFunction_new scope id props w <> (w', Ok f).
Proof.
  intros Hthis Hr Hother Hstage Hheld Hkind.
  pose proof (Resource_new_ok _ _ _ _ _ Hthis) as (Hnode & Hnone & Hw1 & _).
  split.
  - apply (edgeStack_found this w1 r c); [|exact Hr|].
    + rewrite Hw1, Hnode, inStagedApp_attach. exact Hstage.
    + rewrite Hw1. rewrite lookup_attach_ne; [exact Hheld|].
      intros Heq. rewrite Heq, Hheld in Hnone. discriminate.
  - intros w' f H.
    pose proof (EdgeFunction_new_grows _ _ _ _ _ _ H) as G.
    pose proof (EdgeFunction_new_ok _ _ _ _ _ _ H) as (w1' & cfg & Hbase & _).
    rewrite Hthis in Hbase. injection Hbase as _ Hbase.
    assert (Hcross : regionIsUsEast1 (env_region (base f)) = false).
    { rewrite <- Hbase, Hr. now apply regionIsUsEast1_other. }
    destruct (cross_region_shape _ _ _ _ _ _ H Hcross)
      as (r' & Hr' & _ & _ & _ & _ & (reg & sy & Hsupport) & _).
    rewrite <- Hbase, Hr in Hr'. injection Hr' as <-.
    rewrite (grows_lookup G Hheld) in Hsupport. injection Hsupport as ->.
    exact (Hkind reg sy eq_refl).
Qed.

Lemma support_stack_name_held_by_another_construct_witness :
  lookup (constructs squatted0) ["edge-lambda-stack-eu-west-1"] =
    Some (StackC false (Lit "eu-west-1") OtherSynthesizer) /\
  edgeStack {| node := ["StackA"; "Fn1"]; stack := ["StackA"];
               env_region := Lit "eu-west-1" |}
    (attach ["StackA"; "Fn1"] EdgeFunctionC squatted0) =
    (attach ["StackA"; "Fn1"] EdgeFunctionC squatted0,
     Ok ["edge-lambda-stack-eu-west-1"]) /\
  (forall w' f,
     EdgeFunction_new ["StackA"] "Fn1" props0 squatted0 <> (w', Ok f)) /\
  EdgeFunction_new ["StackA"] "Fn1" props0 squatted0 =
    (depend ["StackA"] ["edge-lambda-stack-eu-west-1"]
       (attach ["StackA"; "Fn1"] EdgeFunctionC squatted0),
     Throw "TypeError: functionStack.addEdgeFunction is not a function").
Proof.
  assert (Hheld : lookup (constructs squatted0) ["edge-lambda-stack-eu-west-1"] =
            Some (StackC false (Lit "eu-west-1") OtherSynthesizer))
    by (vm_compute; reflexivity).
  assert (Hthis : Resource_new ["StackA"] "Fn1" squatted0 =
            (attach ["StackA"; "Fn1"] EdgeFunctionC squatted0,
             Ok {| node := ["StackA"; "Fn1"]; stack := ["StackA"];
                   env_region := Lit "eu-west-1" |}))
    by (vm_compute; reflexivity).
  assert (Hother : "eu-west-1" <> "us-east-1") by discriminate.
  assert (Hstage : inStagedApp squatted0 = true) by (vm_compute; reflexivity).
  assert (Hkind : forall reg sy,
            StackC false (Lit "eu-west-1") OtherSynthesizer <> StackC true reg sy)
    by discriminate.
  destruct (support_stack_name_held_by_another_construct
              ["StackA"] "Fn1" props0 squatted0 _ _ "eu-west-1" _
              Hthis eq_refl Hother Hstage Hheld Hkind) as (Hfound & Hnever).
  split; [exact Hheld|]. split; [exact Hfound|]. split; [exact Hnever|].
  vm_compute. reflexivity.
Defined.

Lemma Stack_synthesizer_lookup s w w' sy :
  Stack_synthesizer s w = (w', Ok sy) ->
  exists b reg, lookup (constructs w) s = Some (StackC b reg sy).
Proof.
  unfold Stack_synthesizer.
  destruct (lookup (constructs w) s) as [[]|]; intros H; try discriminate.
  injection H as _ <-. eauto.
Qed.

(** X7.  A support stack that [edgeStack] creates is a child of the root,
    pinned to us-east-1 whatever the caller's region.  Its synthesizer is a
    bootstrapless one with the deploy role and the execution role of the
    caller's stack when that stack has a default synthesizer (or one derived
    from it), and the default of the tree otherwise. *)
Theorem new_support_stack_is_pinned this w w' s :
  edgeStack this w = (w', Ok s) ->
  lookup (constructs w) s = None ->
  parentOf s = node_root /\
  exists b reg sy,
    lookup (constructs w) (stack this) = Some (StackC b reg sy) /\
    w' = attach s
           (StackC true (Lit "us-east-1")
              match sy with
              | DefaultStackSynthesizer _ deploy exec =>
                  DefaultStackSynthesizer true deploy exec
              | OtherSynthesizer => defaultSynthesizer w
              end) w.
Proof.
  unfold edgeStack. intros H Hnone.
  bind_inv_in H w1 isStage Hstage.
  apply Stage_isStage_ok in Hstage. destruct Hstage as [-> ->].
  destruct (inStagedApp w); simpl in H; [|discriminate].
  destruct (env_region this) as [r| | | |]; simpl in H; try discriminate.
  bind_inv_in H w2 found Hfound. apply tryFindChild_ok in Hfound.
  destruct Hfound as [-> [[-> Hsome]|[-> _]]].
  - apply ret_ok in H. destruct H as [_ ->]. contradiction.
  - bind_inv_in H w3 synth Hsynth.
    unfold getCrossRegionSupportSynthesizer in Hsynth.
    bind_inv_in Hsynth w4 sy Hsy.
    pose proof (Stack_synthesizer_ok _ _ _ _ Hsy) as ->.
    apply Stack_synthesizer_lookup in Hsy. destruct Hsy as (b & reg & Hsy).
    apply ret_ok in Hsynth. destruct Hsynth as [-> ->].
    unfold CrossRegionLambdaStack_new in H.
    bind_inv_in H w5 dflt Hd. apply get_ok in Hd. destruct Hd as [-> ->].
    apply Construct_new_ok in H. destruct H as (-> & _ & ->).
    split; [reflexivity|]. exists b, reg, sy. split; [exact Hsy|].
    destruct sy; reflexivity.
Qed.

Lemma new_support_stack_is_pinned_witness :
  exists w',
    edgeStack {| node := ["StackB"; "Fn2"]; stack := ["StackB"];
                 env_region := Lit "ap-south-1" |} app0 =
      (w', Ok ["edge-lambda-stack-ap-south-1"]) /\
    w' = attach ["edge-lambda-stack-ap-south-1"]
           (StackC true (Lit "us-east-1")
              (DefaultStackSynthesizer true "deploy-role" "exec-role")) app0.
Proof.
  eexists. split; [vm_compute; reflexivity|].
  destruct (new_support_stack_is_pinned
              {| node := ["StackB"; "Fn2"]; stack := ["StackB"];
                 env_region := Lit "ap-south-1" |} app0 _ _ eq_refl eq_refl)
    as (_ & b & reg & sy & Hs & Hw).
  vm_compute in Hs. injection Hs as _ _ <-. exact Hw.
Defined.

(** X8.  Two facades with one id can only both be placed cross-region when
    their callers' regions differ: the support stack of a region holds one
    function per id, whichever stack the facade comes from. *)
Theorem same_id_needs_different_regions
    scope1 props1 scope2 props2 id w0 w1 w2 w3 f1 f2 :
  EdgeFunction_new scope1 id props1 w0 = (w1, Ok f1) ->
  regionIsUsEast1 (env_region (base f1)) = false ->
  grows anyConstruct anyEdge w1 w2 ->
  EdgeFunction_new scope2 id props2 w2 = (w3, Ok f2) ->
  env_region (base f2) <> env_region (base f1).
Proof.
  intros H1 Hc1 G H2 Heq.
  assert (Hc2 : regionIsUsEast1 (env_region (base f2)) = false)
    by now rewrite Heq.
  destruct (cross_region_shape _ _ _ _ _ _ H1 Hc1)
    as (r1 & Hr1 & _ & _ & _ & _ & _ & fp & Hfn).
  destruct (cross_region_shape _ _ _ _ _ _ H2 Hc2)
    as (r2 & Hr2 & _ & _ & _ & Hfree & _).
  rewrite Heq, Hr1 in Hr2. injection Hr2 as <-.
  rewrite (grows_lookup G Hfn) in Hfree. discriminate.
Qed.

Lemma same_id_needs_different_regions_witness :
  EdgeFunction_new ["StackA"] "Fn1" props0 app0 = (worldA1, Ok facadeA1) /\
  EdgeFunction_new ["StackB"] "Fn1" props0 worldA1 = (worldB1, Ok facadeB1) /\
  env_region (base facadeB1) <> env_region (base facadeA1).
Proof.
  assert (H1 : EdgeFunction_new ["StackA"] "Fn1" props0 app0
               = (worldA1, Ok facadeA1)) by (vm_compute; reflexivity).
  assert (H2 : EdgeFunction_new ["StackB"] "Fn1" props0 worldA1
               = (worldB1, Ok facadeB1)) by (vm_compute; reflexivity).
  split; [exact H1|]. split; [exact H2|].
  exact (same_id_needs_different_regions _ _ _ _ _ _ _ _ _ _ _
           H1 eq_refl (grows_refl _ _ worldA1) H2).
Defined.




(** ** Where the constructs end up *)

Lemma grows_In P D w w' p c :
  grows P D w w' ->
  In (p, c) (constructs w') -> In (p, c) (constructs w) \/ P p c.
Proof.
  intros H Hin. induction H; simpl in *; auto.
  destruct Hin as [Heq|Hin]; auto.
  injection Heq as <- <-. auto.
Qed.

Lemma wellFormed_In w p x c :
  wellFormed w = true ->
  In (p ++ [x], c) (constructs w) -> lookup (constructs w) p <> None.
Proof.
  unfold wellFormed. intros Hwf Hin.
  rewrite forallb_forall in Hwf. specialize (Hwf _ Hin). simpl in Hwf.
  rewrite rev_app_distr in Hwf. simpl in Hwf. rewrite rev_involutive in Hwf.
  destruct (lookup (constructs w) p); [discriminate|discriminate].
Qed.

Lemma wellFormed_intro w :
  (forall p x c,
     In (p ++ [x], c) (constructs w) -> lookup (constructs w) p <> None) ->
  wellFormed w = true.
Proof.
  intros H. unfold wellFormed. apply forallb_forall. intros [p c] Hin. simpl.
  destruct (rev p) as [|x rp] eqn:E; [reflexivity|].
  assert (Hp : p = rev rp ++ [x]).
  { rewrite <- (rev_involutive p), E. reflexivity. }
  rewrite Hp in Hin. specialize (H _ _ _ Hin).
  destruct (lookup (constructs w) (rev rp)); [reflexivity|contradiction].
Qed.

Lemma lookup_some_grows P D w w' p :
  grows P D w w' ->
  lookup (constructs w) p <> None -> lookup (constructs w') p <> None.
Proof.
  intros G Hp. destruct (lookup (constructs w) p) as [c|] eqn:E; [|contradiction].
  rewrite (grows_lookup G E). discriminate.
Qed.

Lemma grandchild_parent (s q : path) (a b x : string) :
  q ++ [x] = s ++ [a; b] -> q = s ++ [a].
Proof.
  change (s ++ [a; b]) with (s ++ [a] ++ [b]). rewrite app_assoc.
  intros H. apply child_inj in H. tauto.
Qed.

(** X10.  A facade built under a construct of a well-formed tree leaves
    the tree well-formed: whatever the constructor attaches, on either path,
    sits under a construct that is in the tree. *)
Theorem construction_keeps_the_tree_well_formed scope id props w w' f :
  wellFormed w = true ->
  lookup (constructs w) scope <> None ->
  EdgeFunction_new scope id props w = (w', Ok f) ->
  wellFormed w' = true.
Proof.
  intros Hwf Hscope H.
  pose proof (EdgeFunction_new_grows _ _ _ _ _ _ H) as Gany.
  pose proof (placed_function _ _ _ _ _ _ H) as (rl & Hfn & _).
  apply EdgeFunction_new_ok in H.
  destruct H as (w1 & cfg & Hthis & Hcfg & _ & _ & _ & _ & _ & Hlam & _ & _ & _
                 & Hfs & _).
  rewrite Hlam in Hfn.
  pose proof (Resource_new_stack_of _ _ _ _ _ Hthis) as Henc.
  apply Resource_new_ok in Hthis. destruct Hthis as (Hnode & Hnone & Hw1 & _).
  assert (Hfacade : lookup (constructs w1) (node (base f)) <> None).
  { rewrite Hw1, lookup_attach_eq. discriminate. }
  assert (Hold : forall p x c,
            In (p ++ [x], c) (constructs w1) -> lookup (constructs w1) p <> None).
  { intros p x c Hin. rewrite Hw1 in Hin. simpl in Hin.
    destruct Hin as [Heq|Hin].
    - injection Heq as Heq _. rewrite Hnode in Heq. apply child_inj in Heq.
      destruct Heq as [<- _].
      eapply lookup_some_grows; [|exact Hscope].
      rewrite Hw1. apply (attach_grows anyConstruct anyEdge); [exact Hnone|exact I].
    - eapply lookup_some_grows; [|exact (wellFormed_In _ _ _ _ Hwf Hin)].
      rewrite Hw1. apply (attach_grows anyConstruct anyEdge); [exact Hnone|exact I]. }
  apply wellFormed_intro. intros p x c Hin.
  destruct (regionIsUsEast1 (env_region (base f))).
  - apply createInRegionFunction_ok in Hcfg.
    destruct Hcfg as (Hpath & _ & _ & _ & G & _).
    rewrite Hpath in Hfn.
    destruct (grows_In _ _ _ _ _ _ G Hin) as [Hin1|Hnew].
    + exact (lookup_some_grows _ _ _ _ _ G (Hold _ _ _ Hin1)).
    + destruct Hnew as [[Heq _]|[[Heq _]|[Heq _]]].
      * apply child_inj in Heq. destruct Heq as [-> _].
        exact (lookup_some_grows _ _ _ _ _ G Hfacade).
      * apply child_inj in Heq. destruct Heq as [-> _].
        exact (lookup_some_grows _ _ _ _ _ G Hfacade).
      * apply grandchild_parent in Heq. rewrite Heq, Hfn. discriminate.
  - apply createCrossRegionFunction_ok in Hcfg; [|exact Henc].
    destruct Hcfg as (r & _ & Hstage & _ & Hpath & _ & _ & G & _ & Hstack & _).
    rewrite Hpath in Hfn. destruct Hstack as (reg & sy & Hstack).
    destruct (grows_In _ _ _ _ _ _ G Hin) as [Hin1|Hnew].
    + exact (lookup_some_grows _ _ _ _ _ G (Hold _ _ _ Hin1)).
    + destruct Hnew as [[Heq _]|[Hnew|[[Heq _]|[Heq _]]]].
      * change [edgeStackId r] with ([] ++ [edgeStackId r]) in Heq.
        apply child_inj in Heq. destruct Heq as [-> _].
        eapply lookup_some_grows; [exact G|].
        unfold inStagedApp, node_root in Hstage.
        destruct (lookup (constructs w1) []); [discriminate|discriminate].
      * destruct Hnew as [[Heq _]|[[Heq _]|[[Heq _]|[Heq _]]]].
        -- apply child_inj in Heq. destruct Heq as [-> _].
           rewrite Hstack. discriminate.
        -- apply child_inj in Heq. destruct Heq as [-> _].
           rewrite Hstack. discriminate.
        -- apply grandchild_parent in Heq. rewrite Heq, Hfn. discriminate.
        -- apply grandchild_parent in Heq. rewrite Heq, Hfn. discriminate.
      * apply child_inj in Heq. destruct Heq as [-> _].
        pose proof (Stack_of_ok _ _ _ _ Henc) as (_ & (b0 & r0 & sy0 & Hown) & _).
        rewrite (grows_lookup G Hown). discriminate.
      * apply child_inj in Heq. destruct Heq as [-> _].
        exact (lookup_some_grows _ _ _ _ _ G Hfacade).
Qed.

Lemma construction_keeps_the_tree_well_formed_witness :
  wellFormed app0 = true /\
  EdgeFunction_new ["StackA"] "Fn1" props0 app0 = (worldA1, Ok facadeA1) /\
  wellFormed worldA1 = true.
Proof.
  assert (Hwf : wellFormed app0 = true) by (vm_compute; reflexivity).
  assert (Hscope : lookup (constructs app0) ["StackA"] <> None)
    by (vm_compute; discriminate).
  assert (H1 : EdgeFunction_new ["StackA"] "Fn1" props0 app0
               = (worldA1, Ok facadeA1)) by (vm_compute; reflexivity).
  split; [exact Hwf|]. split; [exact H1|].
  exact (construction_keeps_the_tree_well_formed _ _ _ _ _ _ Hwf Hscope H1).
Defined.

Lemma under_child (s p : path) (x : string) : under s p -> under s (p ++ [x]).
Proof. intros [q ->]. exists (q ++ [x]). now rewrite app_assoc. Qed.

(** X11.  After in-region placement the underlying function lies inside
    the caller's stack.  After cross-region placement from an ordinary stack
    it lies outside the caller's stack, as a child of the support stack,
    while the reader whose attribute is the facade's identifier lies inside
    the caller's stack, under the facade. *)
Theorem function_and_reader_placement scope id props w w' f :
  EdgeFunction_new scope id props w = (w', Ok f) ->
  (regionIsUsEast1 (env_region (base f)) = true ->
   under (stack (base f)) (lambda f)) /\
  (regionIsUsEast1 (env_region (base f)) = false ->
   (exists reg sy,
      lookup (constructs w) (stack (base f)) = Some (StackC false reg sy)) ->
   ~ under (stack (base f)) (lambda f) /\
   parentOf (lambda f) = functionStack f /\
   edgeArn f = getAttString (node (base f) ++ ["ArnReader"]) "FunctionArn" /\
   under (stack (base f)) (node (base f) ++ ["ArnReader"])).
Proof.
  intros H. pose proof (EdgeFunction_new_grows _ _ _ _ _ _ H) as Gany.
  split.
  - intros Hin. apply EdgeFunction_new_ok in H.
    destruct H as (w1 & cfg & Hthis & Hcfg & _ & _ & _ & _ & _ & Hlam & _).
    rewrite Hin in Hcfg. apply Resource_new_ok in Hthis.
    destruct Hthis as (_ & _ & _ & _ & _ & Hunder).
    apply createInRegionFunction_ok in Hcfg. destruct Hcfg as (Hpath & _).
    rewrite Hlam, Hpath. now apply under_child.
  - intros Hcross (reg & sy & Hown).
    destruct (cross_region_shape _ _ _ _ _ _ H Hcross)
      as (r & Hr & Hfs & Hlam & Hstage & Hfree & (reg' & sy' & Hstack) & _).
    apply EdgeFunction_new_ok in H.
    destruct H as (w1 & cfg & Hthis & Hcfg & _ & Harn & _).
    pose proof (Resource_new_stack_of _ _ _ _ _ Hthis) as Henc.
    rewrite Hcross in Hcfg. apply Resource_new_ok in Hthis.
    destruct Hthis as (_ & _ & _ & _ & _ & Hunder).
    apply createCrossRegionFunction_ok in Hcfg; [|exact Henc].
    destruct Hcfg as (r0 & _ & _ & _ & _ & _ & Hea & _).
    rewrite Hlam, Hfs, Harn, Hea.
    split; [|split; [reflexivity|split; [reflexivity|now apply under_child]]].
    intros [q Hq].
    destruct (stack (base f)) as [|a [|b rest]] eqn:Est.
    + unfold inStagedApp, node_root in Hstage. rewrite Hown in Hstage.
      discriminate.
    + simpl in Hq. injection Hq as <- _.
      rewrite (grows_lookup Gany Hown) in Hstack. discriminate.
    + simpl in Hq. injection Hq as <- <- Hrest.
      destruct rest; [|discriminate].
      rewrite Hown in Hfree. discriminate.
Qed.

Lemma function_and_reader_placement_witness :
  EdgeFunction_new ["StackA"] "Fn1" props0 app0 = (worldA1, Ok facadeA1) /\
  ~ under (stack (base facadeA1)) (lambda facadeA1) /\
  under (stack (base facadeA1)) (node (base facadeA1) ++ ["ArnReader"]).
Proof.
  assert (H1 : EdgeFunction_new ["StackA"] "Fn1" props0 app0
               = (worldA1, Ok facadeA1)) by (vm_compute; reflexivity).
  split; [exact H1|].
  destruct (function_and_reader_placement _ _ _ _ _ _ H1) as (_ & Hcross).
  destruct (Hcross eq_refl) as (Hout & _ & _ & Hin).
  - eexists. eexists. vm_compute. reflexivity.
  - split; [exact Hout|exact Hin].
Defined.

(** X12.  The default role of a facade is a sibling of its function under
    the support stack, named after the id followed by ServiceRole.  So a
    facade without a role in its props and a facade whose id is the first id
    followed by ServiceRole ask for one name under the support stack of
    their callers' region, the one for its role and the other for its
    function: in whichever order they are built, the two can only both be
    placed cross-region when their callers' regions differ. *)
Theorem default_role_name_blocks_a_function_name
    scope1 id1 props1 scope2 id2 props2 w0 w1 w2 w3 f1 f2 :
  EdgeFunction_new scope1 id1 props1 w0 = (w1, Ok f1) ->
  regionIsUsEast1 (env_region (base f1)) = false ->
  grows anyConstruct anyEdge w1 w2 ->
  EdgeFunction_new scope2 id2 props2 w2 = (w3, Ok f2) ->
  (fp_role props1 = None /\ id2 = id1 +:+ "ServiceRole") \/
  (fp_role props2 = None /\ id1 = id2 +:+ "ServiceRole") ->
  env_region (base f2) <> env_region (base f1).
Proof.
  intros H1 Hc1 G H2 Hnames Heq.
  assert (Hc2 : regionIsUsEast1 (env_region (base f2)) = false)
    by now rewrite Heq.
  destruct (cross_region_shape _ _ _ _ _ _ H1 Hc1)
    as (r1 & Hr1 & Hfs1 & _ & _ & _ & _ & fp1 & Hfn1).
  destruct (cross_region_shape _ _ _ _ _ _ H2 Hc2)
    as (r2 & Hr2 & Hfs2 & _ & _ & Hfree2 & _).
  rewrite Heq, Hr1 in Hr2. injection Hr2 as <-.
  destruct Hnames as [[Hnorole ->]|[Hnorole ->]].
  - (* the role of the first holds the name of the function of the second *)
    pose proof (placed_function _ _ _ _ _ _ H1) as (rl & _ & _ & Hrl).
    rewrite Hnorole, Hc1 in Hrl. destruct Hrl as (-> & _ & Hrole).
    rewrite Hfs1 in Hrole. simpl in Hrole.
    rewrite (grows_lookup G Hrole) in Hfree2. discriminate.
  - (* the function of the first holds the name of the role of the second *)
    pose proof (placed_function _ _ _ _ _ _ H2) as (rl & _ & _ & Hrl).
    rewrite Hnorole, Hc2 in Hrl. destruct Hrl as (-> & Hfree & _).
    rewrite Hfs2 in Hfree. simpl in Hfree.
    rewrite (grows_lookup G Hfn1) in Hfree. discriminate.
Qed.

Lemma default_role_name_blocks_a_function_name_witness :
  (EdgeFunction_new ["StackA"] "Fn1" props0 app0 = (worldA1, Ok facadeA1) /\
   EdgeFunction_new ["StackB"] "Fn1ServiceRole" props0 worldA1 =
     (worldBR, Ok facadeBR) /\
   env_region (base facadeBR) <> env_region (base facadeA1)) /\
  (EdgeFunction_new ["StackA"] "Fn1ServiceRole" props0 app0 =
     (worldAR, Ok facadeAR) /\
   EdgeFunction_new ["StackB"] "Fn1" props0 worldAR = (worldARB, Ok facadeB1) /\
   env_region (base facadeB1) <> env_region (base facadeAR)).
Proof.
  assert (H1 : EdgeFunction_new ["StackA"] "Fn1" props0 app0
               = (worldA1, Ok facadeA1)) by (vm_compute; reflexivity).
  assert (H2 : EdgeFunction_new ["StackB"] "Fn1ServiceRole" props0 worldA1
               = (worldBR, Ok facadeBR)) by (vm_compute; reflexivity).
  assert (H3 : EdgeFunction_new ["StackA"] "Fn1ServiceRole" props0 app0
               = (worldAR, Ok facadeAR)) by (vm_compute; reflexivity).
  assert (H4 : EdgeFunction_new ["StackB"] "Fn1" props0 worldAR
               = (worldARB, Ok facadeB1)) by (vm_compute; reflexivity).
  split.
  - split; [exact H1|]. split; [exact H2|].
    apply (default_role_name_blocks_a_function_name _ _ _ _ _ _ _ _ _ _ _ _
             H1 eq_refl (grows_refl _ _ worldA1) H2).
    left. split; reflexivity.
  - split; [exact H3|]. split; [exact H4|].
    apply (default_role_name_blocks_a_function_name _ _ _ _ _ _ _ _ _ _ _ _
             H3 eq_refl (grows_refl _ _ worldAR) H4).
    right. split; reflexivity.
Defined.

Lemma under_trans (a b c : path) : under a b -> under b c -> under a c.
Proof. intros [q ->] [q' ->]. exists (q ++ q'). now rewrite app_assoc. Qed.

(** X13.  Whatever a successful construction adds to the tree lies at or
    under the caller's stack, or at or under the owning stack: the facade
    and its reader under the facade, the reader's provider directly under
    the caller's stack, the function and what belongs to it under the owning
    stack.  No other part of the tree gets a new construct. *)
Theorem construction_stays_in_two_stacks scope id props w w' f p c :
  EdgeFunction_new scope id props w = (w', Ok f) ->
  lookup (constructs w) p = None ->
  lookup (constructs w') p = Some c ->
  under (stack (base f)) p \/ under (functionStack f) p.
Proof.
  intros H Hnone Hsome. apply EdgeFunction_new_ok in H.
  destruct H as (w1 & cfg & Hthis & Hcfg & _ & _ & _ & _ & _ & _ & _ & _ & _
                 & Hfs & _).
  pose proof (Resource_new_stack_of _ _ _ _ _ Hthis) as Henc.
  apply Resource_new_ok in Hthis.
  destruct Hthis as (_ & Hfree & Hw1 & _ & _ & Hunder).
  destruct (path_eqb (node (base f)) p) eqn:E.
  { apply path_eqb_eq in E. subst p. left. exact Hunder. }
  assert (Hnone1 : lookup (constructs w1) p = None).
  { rewrite Hw1. simpl. now rewrite E. }
  destruct (regionIsUsEast1 (env_region (base f))).
  - apply createInRegionFunction_ok in Hcfg.
    destruct Hcfg as (_ & _ & _ & _ & G & _).
    left. apply (under_trans _ _ _ Hunder).
    exact (proj2 (inRegionFootprint_shape _ _ _ _ (grows_new G Hnone1 Hsome))).
  - apply createCrossRegionFunction_ok in Hcfg; [|exact Henc].
    destruct Hcfg as (r & _ & _ & Hst & _ & _ & _ & G & _).
    rewrite Hfs, Hst.
    destruct (grows_new G Hnone1 Hsome)
      as [[-> _]|[Hfoot|[[-> _]|[-> _]]]].
    + right. apply under_refl.
    + right.
      destruct Hfoot as [[-> _]|[[-> _]|[[-> _]|[-> _]]]]; apply under_app.
    + left. apply under_app.
    + left. now apply under_child.
Qed.

Lemma construction_stays_in_two_stacks_witness :
  EdgeFunction_new ["StackA"] "Fn1" props0 app0 = (worldA1, Ok facadeA1) /\
  (under ["StackA"]
     ["StackA"; "Custom::CrossRegionStringParameterReaderCustomResourceProvider"] \/
   under ["edge-lambda-stack-eu-west-1"]
     ["StackA"; "Custom::CrossRegionStringParameterReaderCustomResourceProvider"]) /\
  (under ["StackA"] ["edge-lambda-stack-eu-west-1"; "Fn1"; "Parameter"] \/
   under ["edge-lambda-stack-eu-west-1"]
     ["edge-lambda-stack-eu-west-1"; "Fn1"; "Parameter"]).
Proof.
  assert (H1 : EdgeFunction_new ["StackA"] "Fn1" props0 app0
               = (worldA1, Ok facadeA1)) by (vm_compute; reflexivity).
  split; [exact H1|]. split.
  - eapply (construction_stays_in_two_stacks _ _ _ _ _ _
              ["StackA"; "Custom::CrossRegionStringParameterReaderCustomResourceProvider"]
              _ H1).
    + vm_compute. reflexivity.
    + vm_compute. reflexivity.
  - eapply (construction_stays_in_two_stacks _ _ _ _ _ _
              ["edge-lambda-stack-eu-west-1"; "Fn1"; "Parameter"] _ H1).
    + vm_compute. reflexivity.
    + vm_compute. reflexivity.
Defined.

Lemma growing_without_roles scope id props given :
  fp_role props = Some given ->
  growing (fun _ c => isRole c = false) anyEdge (EdgeFunction_new scope id props).
Proof.
  intros Hrole. unfold_construction. rewrite Hrole.
  growing_steps ltac:(first [reflexivity|exact I]).
Qed.

(** X14.  With a role in the props the constructor creates no role,
    whether it returns a facade or throws. *)
Theorem supplied_role_means_no_role_created scope id props given w w' r p c :
  fp_role props = Some given ->
  EdgeFunction_new scope id props w = (w', r) ->
  lookup (constructs w) p = None ->
  lookup (constructs w') p = Some c ->
  isRole c = false.
Proof.
  intros Hrole H Hnone Hsome.
  apply (growing_without_roles scope id props given Hrole) in H.
  exact (grows_new H Hnone Hsome).
Qed.

Lemma supplied_role_means_no_role_created_witness :
  EdgeFunction_new ["StackA"] "Fn1" propsVpc app0 = (worldVpc, Ok facadeVpc) /\
  isRole (FunctionC (with_role propsVpc ["StackA"; "MyRole"])) = false.
Proof.
  assert (H1 : EdgeFunction_new ["StackA"] "Fn1" propsVpc app0
               = (worldVpc, Ok facadeVpc)) by (vm_compute; reflexivity).
  split; [exact H1|].
  eapply (supplied_role_means_no_role_created ["StackA"] "Fn1" propsVpc
            ["StackA"; "MyRole"] app0 worldVpc (Ok facadeVpc)
            ["edge-lambda-stack-eu-west-1"; "Fn1"] _ eq_refl H1).
  - vm_compute. reflexivity.
  - vm_compute. reflexivity.
Defined.
